(** * RGT Library API: loan ledger, copy accounting and access control

    A shallow embedding of [src/library_api/app.py].

    - The three ORM tables are finite maps from the primary key to the
      other columns; the database is the default one, SQLite.
    - A request handler is a program over the actions of its SQLAlchemy
      session: queries, changes recorded in the session, [db.commit()].
      One request runs its handler in a session of its own ([get_db]); what
      is not committed when the handler returns or raises is discarded.
    - Requests served at the same time are threads that take turns at
      single database actions.
    - Clock readings are integers (seconds).  The password hash, the
      e-mail syntax check and the settings are parameters; a signed token
      is its claims set with the key that signed it. *)

From stdpp Require Import gmap strings list fin_maps sorting.
From Stdlib Require Import ZArith Ascii.

Open Scope Z_scope.

(** ** ORM models *)

(** [class User(Base)]; the [id] column is the key of the table. *)
Record User := mkUser {
  username : string;
  email : string;
  full_name : option string;
  password_hash : string;
  is_admin : bool;
  user_created_at : Z
}.

(** [class Book(Base)]. *)
Record Book := mkBook {
  title : string;
  author : string;
  isbn : string;
  category : option string;
  total_copies : Z;
  available_copies : Z;
  book_created_at : Z
}.

(** [class Loan(Base)]; [returned_at] is the only nullable column. *)
Record Loan := mkLoan {
  user_id : Z;
  book_id : Z;
  borrowed_at : Z;
  returned_at : option Z
}.

(** The database: [users], [books] and [loans]. *)
Record Store := mkStore {
  users : gmap Z User;
  books : gmap Z Book;
  loans : gmap Z Loan
}.

Definition empty_store : Store := mkStore ∅ ∅ ∅.

(** An ORM object: a row with its primary key. *)
Abbreviation row A := (Z * A)%type.

#[global] Instance User_eq_dec : EqDecision User.
Proof. solve_decision. Defined.
#[global] Instance Book_eq_dec : EqDecision Book.
Proof. solve_decision. Defined.
#[global] Instance Loan_eq_dec : EqDecision Loan.
Proof. solve_decision. Defined.

(** An [Integer] primary key without AUTOINCREMENT (the default
    [DATABASE_URL] is SQLite): the new row gets one more than the largest
    key in the table, 1 in an empty table. *)
Definition max_key {A} (m : gmap Z A) : Z :=
  map_fold (λ k _ acc, Z.max k acc) 0 m.

Definition next_id {A} (m : gmap Z A) : Z := max_key m + 1.

(** Rows of a table in ascending primary-key order ([order_by(id.asc())]). *)
Definition key_le {A} (r1 r2 : row A) : Prop := r1.1 ≤ r2.1.

#[global] Instance key_le_dec {A} (r1 r2 : row A) : Decision (key_le r1 r2).
Proof. unfold key_le. apply _. Defined.

Definition rows {A} (m : gmap Z A) : list (row A) :=
  merge_sort key_le (map_to_list m).

(** [query.filter(p)] keeps the rows on which the SQL condition holds. *)
Definition select {A} (p : row A → Prop) `{!∀ r, Decision (p r)}
    (m : gmap Z A) : list (row A) :=
  filter p (rows m).

(** [.first()], [.count()] *)
Definition first {A} (l : list A) : option A := head l.
Definition count {A} (l : list A) : Z := Z.of_nat (length l).

Arguments select : simpl never.
Arguments first : simpl never.
Arguments count : simpl never.
Arguments next_id : simpl never.

(** A Loan is Active while [returned_at] is NULL.  The Active Loans of a
    Title, and those among them of one User: *)
Definition active_loans (bid : Z) (db : Store) : list (row Loan) :=
  select (λ r, book_id r.2 = bid ∧ returned_at r.2 = None) (loans db).

Definition active_loans_of (uid bid : Z) (db : Store) : list (row Loan) :=
  select (λ r, user_id r.2 = uid ∧ book_id r.2 = bid ∧ returned_at r.2 = None)
         (loans db).

Arguments active_loans : simpl never.
Arguments active_loans_of : simpl never.


(** ** Settings, errors, tokens *)

(** [class Settings(BaseSettings)] *)
Record Settings := mkSettings {
  SECRET_KEY : string;
  ACCESS_TOKEN_EXPIRE_MINUTES : Z;
  DATABASE_URL : string;
  ADMIN_DEFAULT_USERNAME : string;
  ADMIN_DEFAULT_PASSWORD : string
}.

(** What a request can end with instead of its response: an
    [HTTPException] raised by the handler, or an exception nobody catches
    (the framework answers 500). *)
Inductive error :=
  | HTTPException (status_code : Z) (detail : string)
  | Unhandled (exn : string).

#[global] Instance error_eq_dec : EqDecision error.
Proof. solve_decision. Defined.

Definition credentials_exception : error :=
  HTTPException 401 "Could not validate credentials".

(** The claims set of a bearer token; both entries may be missing from a
    token that was not issued by [create_access_token]. *)
Record Claims := mkClaims {
  sub : option string;
  exp : option Z
}.

(** A bearer token as [jose.jwt] sees it: either a string that is not an
    HS256-signed JWS over a JSON claims set, or such a claims set together
    with the key its signature was computed with.  The MAC is an opaque
    primitive: a signature verifies under a key exactly when it was made
    with that key. *)
Inductive Token :=
  | Malformed (raw : string)
  | Signed (key : string) (payload : Claims).

(** [jwt.encode(to_encode, key, algorithm=ALGORITHM)] *)
Definition jwt_encode (to_encode : Claims) (key : string) : Token :=
  Signed key to_encode.

(** [jwt.decode(token, key, algorithms=[ALGORITHM])] at time [now]: [None]
    stands for a raised [JWTError].  An [exp] claim is rejected once it lies
    before the current time; a token without one is not checked for expiry. *)
Definition jwt_decode (now : Z) (token : Token) (key : string) : option Claims :=
  match token with
  | Malformed _ => None
  | Signed k payload =>
      if decide (k = key) then
        match exp payload with
        | Some e => if decide (e < now) then None else Some payload
        | None => Some payload
        end
      else None
  end.

(** ** The session: pending changes and their flush *)

(** A change recorded in the session's unit of work and not yet sent to the
    database. *)
Inductive write :=
  | AddUser (u : User)                       (* db.add(User(...)) *)
  | AddBook (b : Book)                       (* db.add(Book(...)) *)
  | AddLoan (l : Loan)                       (* db.add(Loan(...)) *)
  | SetAvailableCopies (book : Z) (n : Z)    (* book.available_copies = n *)
  | SetReturnedAt (loan : Z) (t : Z)         (* loan.returned_at = t *)
  | DeleteBook (book : Z).                   (* db.delete(book) *)

Definition with_available_copies (n : Z) (b : Book) : Book :=
  mkBook (title b) (author b) (isbn b) (category b) (total_copies b) n
         (book_created_at b).

Definition with_returned_at (t : Z) (l : Loan) : Loan :=
  mkLoan (user_id l) (book_id l) (borrowed_at l) (Some t).

(** What the unit of work does with the loans of a book that is being
    deleted.  [Book.loans] (app.py, line 80) is declared
    [relationship(back_populates="book")], with no delete cascade and no
    [passive_deletes]: before the parent row is deleted its children are
    loaded and detached by an UPDATE that sets their foreign key to NULL.
    [Loan.book_id] (line 86) is [Mapped[int]], which declares the column
    NOT NULL, so that UPDATE is refused ([None]) as soon as one row of
    [loans], Active or Returned, refers to the book; with no such row there
    is nothing to detach. *)
Definition detach_loans (book : Z) (db : Store) : option Store :=
  if decide (select (λ r, book_id r.2 = book) (loans db) = [])
  then Some db
  else None.

(** One change of the flush sent to the database; [None] is a statement
    that the database or the ORM refuses, which aborts the transaction.
    The second component lists the primary key given to an inserted row.

    - An INSERT checks the [unique=True] columns ([users.username],
      [users.email], [books.isbn]).
    - An UPDATE of a row that is gone matches no row, which the ORM reports
      as an error.
    - The DELETE of a book comes after its loans are detached. *)
Definition apply_write (w : write) (db : Store) : option (Store * list Z) :=
  match w with
  | AddUser u =>
      if decide (select (λ r, username r.2 = username u ∨ email r.2 = email u)
                        (users db) = [])
      then let i := next_id (users db) in
           Some (mkStore (<[i := u]> (users db)) (books db) (loans db), [i])
      else None
  | AddBook b =>
      if decide (select (λ r, isbn r.2 = isbn b) (books db) = [])
      then let i := next_id (books db) in
           Some (mkStore (users db) (<[i := b]> (books db)) (loans db), [i])
      else None
  | AddLoan l =>
      let i := next_id (loans db) in
      Some (mkStore (users db) (books db) (<[i := l]> (loans db)), [i])
  | SetAvailableCopies i n =>
      match books db !! i with
      | Some b => Some (mkStore (users db)
                          (<[i := with_available_copies n b]> (books db))
                          (loans db), [])
      | None => None
      end
  | SetReturnedAt i t =>
      match loans db !! i with
      | Some l => Some (mkStore (users db) (books db)
                          (<[i := with_returned_at t l]> (loans db)), [])
      | None => None
      end
  | DeleteBook i =>
      match detach_loans i db with
      | Some db' => Some (mkStore (users db') (delete i (books db')) (loans db'), [])
      | None => None
      end
  end.

(** The flush of [db.commit()]: the pending changes as one transaction,
    all of them or none. *)
Fixpoint flush (ws : list write) (db : Store) : option (Store * list Z) :=
  match ws with
  | [] => Some (db, [])
  | w :: ws' =>
      match apply_write w db with
      | Some (db1, ids1) =>
          match flush ws' db1 with
          | Some (db2, ids2) => Some (db2, ids1 ++ ids2)
          | None => None
          end
      | None => None
      end
  end.

(** ** Handlers as programs over database actions *)

(** A handler is a tree of the actions it performs on its session: a query
    sent to the database ([Read], with the continuation on its result), a
    change recorded in the session ([Pend]), and [db.commit()] ([Commit],
    whose continuation receives the keys of the inserted rows, as
    [db.refresh] makes them visible on the new objects). *)
Inductive prog (A : Type) : Type :=
  | Ret (a : A)
  | Raise (e : error)
  | Read {R : Type} (q : Store → R) (k : R → prog A)
  | Pend (w : write) (k : prog A)
  | Commit (k : list Z → prog A).

Arguments Ret {A} a.
Arguments Raise {A} e.
Arguments Read {A R} q k.
Arguments Pend {A} w k.
Arguments Commit {A} k.

Fixpoint prog_bind {A B} (f : A → prog B) (p : prog A) : prog B :=
  match p with
  | Ret a => f a
  | Raise e => Raise e
  | Read q k => Read q (λ r, prog_bind f (k r))
  | Pend w k => Pend w (prog_bind f k)
  | Commit k => Commit (λ ids, prog_bind f (k ids))
  end.

#[global] Instance prog_ret : MRet prog := @Ret.
#[global] Instance prog_mbind : MBind prog := @prog_bind.

Definition query {R} (q : Store → R) : prog R := Read q Ret.
Definition pend (w : write) : prog unit := Pend w (Ret tt).
Definition commit : prog (list Z) := Commit Ret.

(** A handler run from start to end with no other request in between:
    the database, the changes still pending in the session, and the
    handler's outcome.  A failed flush rolls the transaction back and the
    exception is not caught. *)
Fixpoint exec {A} (p : prog A) (pending : list write) (db : Store)
    : Store * list write * (error + A) :=
  match p with
  | Ret a => (db, pending, inr a)
  | Raise e => (db, pending, inl e)
  | Read q k => exec (k (q db)) pending db
  | Pend w k => exec k (pending ++ [w]) db
  | Commit k =>
      match flush pending db with
      | Some (db', ids) => exec (k ids) [] db'
      | None => (db, [], inl (Unhandled "sqlalchemy.exc"))
      end
  end.

(** One request ([get_db]): the handler runs in a fresh session, and the
    session is closed when it returns or raises, which drops what was not
    committed.  The result is the database afterwards and the outcome. *)
Definition run {A} (p : prog A) (db : Store) : Store * (error + A) :=
  let '(db', _, r) := exec p [] db in (db', r).

(** ** SQL LIKE *)

(** SQLite's [lower()]: the 26 ASCII capitals only. *)
Definition lower_ascii (c : ascii) : ascii :=
  let n := nat_of_ascii c in
  if decide (65 ≤ n ≤ 90)%nat then ascii_of_nat (n + 32) else c.

Definition lower (s : list ascii) : list ascii := lower_ascii <$> s.

(** [s LIKE pat] with no ESCAPE clause: [%] stands for any run of
    characters, [_] for any single character, every other character for
    itself.  A character is one [ascii] of the string. *)
Fixpoint like (pat : list ascii) : list ascii → bool :=
  match pat with
  | [] => λ s, bool_decide (s = [])
  | c :: pat' =>
      if decide (c = "%"%char) then
        fix any_run (s : list ascii) : bool :=
          like pat' s || match s with [] => false | _ :: s' => any_run s' end
      else if decide (c = "_"%char) then
        λ s, match s with [] => false | _ :: s' => like pat' s' end
      else
        λ s, match s with
             | [] => false
             | d :: s' => bool_decide (c = d) && like pat' s'
             end
  end.

(** [column.ilike(pattern)], rendered as [lower(column) LIKE lower(pattern)]. *)
Definition ilike (column pattern : string) : bool :=
  like (lower (String.list_ascii_of_string pattern))
       (lower (String.list_ascii_of_string column)).

(** Case-insensitive substring match, the reading of [q] that its
    description gives ("title/author contains"): [text] occurs in [column]
    once both are lowered. *)
Fixpoint starts_with (p s : list ascii) : bool :=
  match p, s with
  | [], _ => true
  | _ :: _, [] => false
  | c :: p', d :: s' => bool_decide (c = d) && starts_with p' s'
  end.

Fixpoint contains (p s : list ascii) : bool :=
  starts_with p s
  || match s with [] => false | _ :: s' => contains p s' end.

Definition contains_ci (column text : string) : bool :=
  contains (lower (String.list_ascii_of_string text))
           (lower (String.list_ascii_of_string column)).

Definition wildcard_free (s : list ascii) : Prop :=
  Forall (λ c, c ≠ "%"%char ∧ c ≠ "_"%char) s.

(** ** Schemas *)

Record SignupIn := mkSignupIn {
  signup_username : string;
  signup_email : string;
  signup_password : string;
  signup_full_name : option string
}.

Record BookCreate := mkBookCreate {
  bc_title : string;
  bc_author : string;
  bc_isbn : string;
  bc_category : option string;
  bc_total_copies : Z
}.

Record BorrowIn := mkBorrowIn { borrow_book_id : Z }.

Definition str_len (s : string) : Z := Z.of_nat (String.length s).

Definition isbn_char (c : ascii) : bool :=
  let n := nat_of_ascii c in
  bool_decide (48 ≤ n ≤ 57)%nat || bool_decide (c = "X"%char)
  || bool_decide (c = "x"%char) || bool_decide (c = "-"%char).

(** The constraints of [BookCreate] (field values as they are after
    [strip_whitespace]); a body that fails them never reaches the handler. *)
Definition BookCreate_valid (p : BookCreate) : bool :=
  bool_decide (1 ≤ str_len (bc_title p) ≤ 255)
  && bool_decide (1 ≤ str_len (bc_author p) ≤ 255)
  && bool_decide (10 ≤ str_len (bc_isbn p) ≤ 17)
  && forallb isbn_char (String.list_ascii_of_string (bc_isbn p))
  && match bc_category p with Some c => bool_decide (str_len c ≤ 100) | None => true end
  && bool_decide (1 ≤ bc_total_copies p).

Definition validation_error : error := HTTPException 422 "validation error".

Inductive Response :=
  | UserOut (u : row User)
  | TokenOut (access_token : Token)
  | LoansOut (ls : list (row Loan))
  | BookOut (b : row Book)
  | BooksOut (bs : list (row Book))
  | LoanOut (l : row Loan)
  | NoContent.

(** Python truthiness of an optional string: neither [None] nor empty. *)
Definition truthy (s : option string) : option string :=
  match s with
  | Some s' => if decide (s' = "") then None else Some s'
  | None => None
  end.

(** ** The application *)

Section App.

(** [settings = Settings()], the two [passlib] entry points and the syntax
    check behind [EmailStr]. *)
Variable settings : Settings.
Variable hash_pw : string → string.
Variable verify_pw : string → string → bool.
Variable email_valid : string → bool.

Definition SignupIn_valid (d : SignupIn) : bool :=
  bool_decide (3 ≤ str_len (signup_username d) ≤ 50)
  && email_valid (signup_email d)
  && bool_decide (8 ≤ str_len (signup_password d) ≤ 128)
  && match signup_full_name d with Some n => bool_decide (str_len n ≤ 255) | None => true end.

(** [create_access_token(sub)] at time [now] (seconds). *)
Definition create_access_token (now : Z) (sub : string) : Token :=
  jwt_encode (mkClaims (Some sub)
                (Some (now + 60 * ACCESS_TOKEN_EXPIRE_MINUTES settings)))
             (SECRET_KEY settings).

(** [db.query(User).filter(User.username == name).first()]; comparing with a
    missing [sub] is a comparison with NULL, which no row satisfies. *)
Definition user_by_username (name : option string) (db : Store) : option (row User) :=
  match name with
  | Some n => first (select (λ r, username r.2 = n) (users db))
  | None => None
  end.

(** The account of the bootstrap block. *)
Definition admin_account (now : Z) : User :=
  mkUser (ADMIN_DEFAULT_USERNAME settings)
         (ADMIN_DEFAULT_USERNAME settings +:+ "@local")
         (Some "Admin")
         (hash_pw (ADMIN_DEFAULT_PASSWORD settings))
         true now.

(** The bootstrap block run when the module is loaded. *)
Definition bootstrap_admin (now : Z) : prog unit :=
  existing ← query (user_by_username (Some (ADMIN_DEFAULT_USERNAME settings)));
  match existing with
  | Some _ => mret tt
  | None =>
      pend (AddUser (admin_account now));;
      commit;;
      mret tt
  end.

(** [oauth2_scheme]: the bearer token of the request, 401 without one. *)
Definition oauth2_scheme (authorization : option Token) : prog Token :=
  match authorization with
  | Some token => mret token
  | None => Raise (HTTPException 401 "Not authenticated")
  end.

Definition get_current_user (now : Z) (token : Token) : prog (row User) :=
  match jwt_decode now token (SECRET_KEY settings) with
  | None => Raise credentials_exception
  | Some payload =>
      user ← query (user_by_username (sub payload));
      match user with
      | None => Raise credentials_exception
      | Some user => mret user
      end
  end.

Definition require_admin (user : row User) : prog (row User) :=
  if is_admin user.2 then mret user
  else Raise (HTTPException 403 "Admin required").

Definition signup (now : Z) (data : SignupIn) : prog (row User) :=
  taken ← query (λ db, first (select (λ r, username r.2 = signup_username data
                                           ∨ email r.2 = signup_email data)
                                     (users db)));
  match taken with
  | Some _ => Raise (HTTPException 400 "username or email already exists")
  | None =>
      let user := mkUser (signup_username data) (signup_email data)
                         (signup_full_name data)
                         (hash_pw (signup_password data)) false now in
      pend (AddUser user);;
      ids ← commit;
      match ids with
      | [i] => mret (i, user)
      | _ => Raise (Unhandled "refresh")
      end
  end.

Definition login (now : Z) (form_username form_password : string) : prog Token :=
  user ← query (user_by_username (Some form_username));
  match user with
  | Some user =>
      if verify_pw form_password (password_hash user.2)
      then mret (create_access_token now (username user.2))
      else Raise (HTTPException 401 "invalid credentials")
  | None => Raise (HTTPException 401 "invalid credentials")
  end.

Definition me (user : row User) : prog (row User) := mret user.

Definition my_loans (user : row User) : prog (list (row Loan)) :=
  query (λ db, reverse (select (λ r, user_id r.2 = user.1) (loans db))).

Definition create_book (now : Z) (payload : BookCreate) (admin : row User)
    : prog (row Book) :=
  taken ← query (λ db, first (select (λ r, isbn r.2 = bc_isbn payload) (books db)));
  match taken with
  | Some _ => Raise (HTTPException 400 "ISBN already exists")
  | None =>
      let book := mkBook (bc_title payload) (bc_author payload) (bc_isbn payload)
                         (bc_category payload) (bc_total_copies payload)
                         (bc_total_copies payload) now in
      pend (AddBook book);;
      ids ← commit;
      match ids with
      | [i] => mret (i, book)
      | _ => Raise (Unhandled "refresh")
      end
  end.

(** The three optional filters of [list_books], each applied only when its
    [if] takes it. *)
Definition category_filter (cat : option string) (r : row Book) : Prop :=
  match truthy cat with
  | Some c => category r.2 = Some c
  | None => True
  end.

Definition available_filter (available : option bool) (r : row Book) : Prop :=
  match available with
  | Some true => 0 < available_copies r.2
  | _ => True
  end.

Definition q_filter (q : option string) (r : row Book) : Prop :=
  match truthy q with
  | Some q' =>
      let like := "%" +:+ q' +:+ "%" in
      ilike (title r.2) like = true ∨ ilike (author r.2) like = true
  | None => True
  end.

#[local] Instance category_filter_dec c r : Decision (category_filter c r).
Proof. unfold category_filter. destruct (truthy c); apply _. Defined.
#[local] Instance available_filter_dec a r : Decision (available_filter a r).
Proof. unfold available_filter. destruct a as [[]|]; apply _. Defined.
#[local] Instance q_filter_dec q r : Decision (q_filter q r).
Proof. unfold q_filter. destruct (truthy q); apply _. Defined.

Definition list_books (cat : option string) (available : option bool)
    (q : option string) : prog (list (row Book)) :=
  query (λ db, select (λ r, category_filter cat r
                            ∧ available_filter available r
                            ∧ q_filter q r) (books db)).

Definition delete_book (bid : Z) (admin : row User) : prog unit :=
  book ← query (λ db, books db !! bid);
  match book with
  | None => Raise (HTTPException 404 "book not found")
  | Some _ =>
      n ← query (λ db, count (active_loans bid db));
      if decide (n = 0) then
        pend (DeleteBook bid);;
        commit;;
        mret tt
      else Raise (HTTPException 409 "book has active loans")
  end.

(** [db.refresh(obj)]: the row read back by primary key. *)
Definition refresh {A} (table : Store → gmap Z A) (ids : list Z) : prog (row A) :=
  match ids with
  | [i] =>
      r ← query (λ db, table db !! i);
      match r with
      | Some x => mret (i, x)
      | None => Raise (Unhandled "InvalidRequestError")
      end
  | _ => Raise (Unhandled "InvalidRequestError")
  end.

Definition borrow (now : Z) (data : BorrowIn) (user : row User) : prog (row Loan) :=
  book ← query (λ db, books db !! borrow_book_id data);
  match book with
  | None => Raise (HTTPException 404 "book not found")
  | Some book =>
      if decide (available_copies book ≤ 0) then
        Raise (HTTPException 409 "no available copies")
      else
        active ← query (λ db, first (active_loans_of user.1 (borrow_book_id data) db));
        match active with
        | Some _ => Raise (HTTPException 409 "already borrowed")
        | None =>
            pend (SetAvailableCopies (borrow_book_id data)
                                     (available_copies book - 1));;
            pend (AddLoan (mkLoan user.1 (borrow_book_id data) now None));;
            ids ← commit;
            refresh loans ids
        end
  end.

Definition return_book (now : Z) (lid : Z) (user : row User) : prog (row Loan) :=
  loan ← query (λ db, loans db !! lid);
  match loan with
  | None => Raise (HTTPException 404 "loan not found")
  | Some loan =>
      if bool_decide (user_id loan ≠ user.1) && negb (is_admin user.2) then
        Raise (HTTPException 403 "not your loan")
      else
        match returned_at loan with
        | Some _ => Raise (HTTPException 409 "already returned")
        | None =>
            pend (SetReturnedAt lid now);;
            book ← query (λ db, books db !! book_id loan);
            match book with
            | None => Raise (Unhandled "AttributeError")
            | Some book =>
                pend (SetAvailableCopies (book_id loan)
                                         (available_copies book + 1));;
                commit;;
                refresh loans [lid]
            end
        end
  end.

(** The routes.  [now] is the clock reading used by the request. *)
Inductive Request :=
  | POST_auth_signup (data : SignupIn)
  | POST_auth_login (form_username form_password : string)
  | GET_users_me (authorization : option Token)
  | GET_users_me_loans (authorization : option Token)
  | POST_books (authorization : option Token) (payload : BookCreate)
  | GET_books (cat : option string) (available : option bool) (q : option string)
  | DELETE_books (authorization : option Token) (bid : Z)
  | POST_loans (authorization : option Token) (data : BorrowIn)
  | POST_loans_return (authorization : option Token) (lid : Z).

Definition current_user (now : Z) (authorization : option Token) : prog (row User) :=
  token ← oauth2_scheme authorization;
  get_current_user now token.

Definition app (now : Z) (req : Request) : prog Response :=
  match req with
  | POST_auth_signup data =>
      if SignupIn_valid data then u ← signup now data; mret (UserOut u)
      else Raise validation_error
  | POST_auth_login form_username form_password =>
      t ← login now form_username form_password; mret (TokenOut t)
  | GET_users_me authorization =>
      user ← current_user now authorization;
      u ← me user; mret (UserOut u)
  | GET_users_me_loans authorization =>
      user ← current_user now authorization;
      ls ← my_loans user; mret (LoansOut ls)
  | POST_books authorization payload =>
      if BookCreate_valid payload then
        user ← current_user now authorization;
        admin ← require_admin user;
        b ← create_book now payload admin; mret (BookOut b)
      else Raise validation_error
  | GET_books cat available q =>
      bs ← list_books cat available q; mret (BooksOut bs)
  | DELETE_books authorization bid =>
      user ← current_user now authorization;
      admin ← require_admin user;
      delete_book bid admin;; mret NoContent
  | POST_loans authorization data =>
      user ← current_user now authorization;
      l ← borrow now data user; mret (LoanOut l)
  | POST_loans_return authorization lid =>
      user ← current_user now authorization;
      l ← return_book now lid user; mret (LoanOut l)
  end.

End App.


(** ** Read-only handlers *)

(** A program that only reads: it leaves the database and the session as
    they are. *)
Definition read_only {A} (p : prog A) : Prop :=
  ∀ pend db, ∃ r, exec p pend db = (db, pend, r).

(** ** Responses *)

(** The [status_code] of each route. *)
Definition success_status (req : Request) : Z :=
  match req with
  | POST_auth_signup _ | POST_books _ _ | POST_loans _ _ => 201
  | DELETE_books _ _ => 204
  | _ => 200
  end.

(** The status line of a response: the route's success code, the code of a
    raised [HTTPException], 500 for any other exception. *)
Definition status {A} (success : Z) (r : error + A) : Z :=
  match r with
  | inr _ => success
  | inl (HTTPException c _) => c
  | inl (Unhandled _) => 500
  end.

(** ** Histories of the database *)

Section Histories.

Variable settings : Settings.
Variable hash_pw : string → string.
Variable verify_pw : string → string → bool.
Variable email_valid : string → bool.

(** The states the database goes through when requests are served one
    after the other: [create_all] on a new database gives the empty tables,
    every start of the process runs the bootstrap block, and every request
    runs its handler. *)
Inductive reachable : Store → Prop :=
  | reachable_new : reachable empty_store
  | reachable_startup now db :
      reachable db →
      reachable (run (bootstrap_admin settings hash_pw now) db).1
  | reachable_request now req db :
      reachable db →
      reachable (run (app settings hash_pw verify_pw email_valid now req) db).1.

(** What a request can do to the database: nothing, or what one of the
    five writing handlers does. *)
Inductive transition (now : Z) (db : Store) : Store → Prop :=
  | t_none : transition now db db
  | t_signup data :
      transition now db (run (signup hash_pw now data) db).1
  | t_create_book payload admin :
      BookCreate_valid payload = true →
      transition now db (run (create_book now payload admin) db).1
  | t_delete_book bid admin :
      transition now db (run (delete_book bid admin) db).1
  | t_borrow data user :
      transition now db (run (borrow now data user) db).1
  | t_return_book lid user :
      transition now db (run (return_book now lid user) db).1.

(** Requests served one after the other, each with its clock reading: the
    database at the end and the status of every response. *)
Fixpoint serve (reqs : list (Z * Request)) (db : Store) : Store * list Z :=
  match reqs with
  | [] => (db, [])
  | (now, req) :: rest =>
      let '(db1, r) := run (app settings hash_pw verify_pw email_valid now req) db in
      let '(db2, codes) := serve rest db1 in
      (db2, status (success_status req) r :: codes)
  end.

(** A later state of the database: some requests and restarts have been
    served in between. *)
Inductive later (db : Store) : Store → Prop :=
  | later_now : later db db
  | later_startup now db' :
      later db db' →
      later db (run (bootstrap_admin settings hash_pw now) db').1
  | later_request now req db' :
      later db db' →
      later db (run (app settings hash_pw verify_pw email_valid now req) db').1.

(** Admin accounts are copies of the bootstrap account, and handles are
    unique. *)
Definition admins_seeded (db : Store) : Prop :=
  ∀ uid u, users db !! uid = Some u → is_admin u = true →
    ∃ t, u = admin_account settings hash_pw t.

Definition usernames_unique (db : Store) : Prop :=
  ∀ i j u v, users db !! i = Some u → users db !! j = Some v →
    username u = username v → i = j.

End Histories.

(** ** Reasons to refuse a token *)

Definition token_malformed (token : Token) : Prop :=
  match token with Malformed _ => True | Signed _ _ => False end.

Definition signature_invalid (key : string) (token : Token) : Prop :=
  match token with Signed k _ => k ≠ key | Malformed _ => False end.

Definition token_expired (now : Z) (token : Token) : Prop :=
  match token with
  | Signed _ payload =>
      match exp payload with Some e => e < now | None => False end
  | Malformed _ => False
  end.

(** The subject a token carries. *)
Definition token_subject (token : Token) : option string :=
  match token with Signed _ payload => sub payload | Malformed _ => None end.

(** ** Invariants of the ledger *)

(** I1: available copies are the total minus the Active Loans. *)
Definition I1 (db : Store) : Prop :=
  ∀ bid b, books db !! bid = Some b →
    available_copies b = total_copies b - count (active_loans bid db).


(** I3, as a property of a state: the Title of an Active Loan is in the
    catalog. *)
Definition I3 (db : Store) : Prop :=
  ∀ lid l, loans db !! lid = Some l → returned_at l = None →
    is_Some (books db !! book_id l).

(** I4: available copies stay between 0 and the total. *)
Definition I4 (db : Store) : Prop :=
  ∀ bid b, books db !! bid = Some b →
    0 ≤ available_copies b ≤ total_copies b.

(** The copy-accounting invariant. *)
Definition invariant (db : Store) : Prop := I1 db ∧ I3 db ∧ I4 db.

#[local] Hint Extern 1 (Decision _) => progress cbn beta : typeclass_instances.

#[global] Instance I1_dec db : Decision (I1 db) :=
  map_Forall_dec
    (λ bid b, available_copies b = total_copies b - count (active_loans bid db))
    (books db).

#[global] Instance I3_dec db : Decision (I3 db) :=
  map_Forall_dec
    (λ (lid : Z) l, returned_at l = None → is_Some (books db !! book_id l))
    (loans db).

#[global] Instance I4_dec db : Decision (I4 db) :=
  map_Forall_dec
    (λ (bid : Z) b, 0 ≤ available_copies b ≤ total_copies b)
    (books db).

(** I2 at the pairs that occur in the loans table, which is all it takes
    (lemma [I2_bounded]). *)
Definition I2_rows (db : Store) : Prop :=
  map_Forall (λ (lid : Z) l,
    (length (active_loans_of (user_id l) (book_id l) db) ≤ 1)%nat) (loans db).

#[global] Instance I2_rows_dec db : Decision (I2_rows db) :=
  map_Forall_dec
    (λ (lid : Z) l,
      (length (active_loans_of (user_id l) (book_id l) db) ≤ 1)%nat) (loans db).

#[global] Instance invariant_dec db : Decision (invariant db).
Proof. unfold invariant. apply _. Defined.

(** ** Requests served at the same time *)

(** A request being served by a worker thread: the rest of its handler and
    the changes pending in its session.  The endpoints are plain [def]s, the
    sessions are made per request and the engine is opened with
    [check_same_thread=False]: handlers of different requests run on
    different threads against the one database. *)
Record thread (A : Type) := mkThread {
  pending : list write;
  code : prog A
}.

Arguments mkThread {A} pending code.
Arguments pending {A} t.
Arguments code {A} t.

Definition spawn {A} (p : prog A) : thread A := mkThread [] p.

(** One database action of a thread.  A query is one SELECT on the
    database as it is at that moment; with [autoflush=False] nothing is
    written before [db.commit()], which sends the pending changes as one
    transaction. *)
Definition step {A} (t : thread A) (db : Store) : Store * thread A :=
  match code t with
  | Ret _ | Raise _ => (db, t)
  | Read q k => (db, mkThread (pending t) (k (q db)))
  | Pend w k => (db, mkThread (pending t ++ [w]) k)
  | Commit k =>
      match flush (pending t) db with
      | Some (db', ids) => (db', mkThread [] (k ids))
      | None => (db, mkThread [] (Raise (Unhandled "sqlalchemy.exc")))
      end
  end.

(** [n] actions of one thread in a row. *)
Fixpoint steps {A} (n : nat) (t : thread A) (db : Store) : Store * thread A :=
  match n with
  | O => (db, t)
  | S n' => let '(db', t') := step t db in steps n' t' db'
  end.

(** The outcome of a finished thread. *)
Definition outcome {A} (t : thread A) : option (error + A) :=
  match code t with
  | Ret a => Some (inr a)
  | Raise e => Some (inl e)
  | _ => None
  end.

(** Two requests in flight; the schedule says which thread performs the
    next action ([true] for the first). *)
Fixpoint interleave {A B} (schedule : list bool) (t1 : thread A) (t2 : thread B)
    (db : Store) : Store * thread A * thread B :=
  match schedule with
  | [] => (db, t1, t2)
  | true :: rest =>
      let '(db', t1') := step t1 db in interleave rest t1' t2 db'
  | false :: rest =>
      let '(db', t2') := step t2 db in interleave rest t1 t2' db'
  end.

(** ** A small library, for examples *)

Definition demo_settings : Settings :=
  mkSettings "s3cret" 60 "sqlite:///./library.db" "admin" "admin1234".

Definition demo_hash_pw (p : string) : string := "$2b$" +:+ p.

Definition demo_verify_pw (p hashed : string) : bool :=
  bool_decide (hashed = demo_hash_pw p).

Definition demo_email_valid (e : string) : bool :=
  bool_decide (e ≠ "").

Definition admin_user : User :=
  mkUser "admin" "admin@local" (Some "Admin") (demo_hash_pw "admin1234") true 0.

Definition john : User :=
  mkUser "john_doe" "john@example.com" (Some "John Doe")
         (demo_hash_pw "securepass123") false 1.

Definition jane : User :=
  mkUser "jane_roe" "jane@example.com" None (demo_hash_pw "correcthorse") false 2.

Definition python_book (available : Z) : Book :=
  mkBook "Python Programming" "John Smith" "978-0123456789"
         (Some "Programming") 5 available 3.

Definition last_copy_book (available : Z) : Book :=
  mkBook "Software Foundations" "B. Pierce" "0-000-00000-X" None 1 available 4.

Definition demo_users : gmap Z User :=
  <[3 := jane]> (<[2 := john]> (<[1 := admin_user]> ∅)).

(** John holds one copy of the first book; the second has its only copy on
    the shelf. *)
Definition demo_db : Store :=
  mkStore demo_users
          (<[2 := last_copy_book 1]> (<[1 := python_book 4]> ∅))
          (<[1 := mkLoan 2 1 5 None]> ∅).

Definition token_of (name : string) : Token :=
  Signed "s3cret" (mkClaims (Some name) (Some 3600)).

(** The database after the first start of the process. *)
Definition fresh_db : Store :=
  (run (bootstrap_admin demo_settings demo_hash_pw 0) empty_store).1.

Definition demo_serve : list (Z * Request) → Store → Store * list Z :=
  serve demo_settings demo_hash_pw demo_verify_pw demo_email_valid.

(** The deletion-guard scenario: an admin creates a Title with one copy,
    John borrows it, the admin tries to delete it, John returns it, the
    admin deletes it again, and the catalog is listed. *)
Definition one_copy : BookCreate :=
  mkBookCreate "Software Foundations" "B. Pierce" "0-000-00000-X" None 1.

Definition deletion_guard_scenario : list (Z * Request) :=
  [ (1, POST_auth_signup
          (mkSignupIn "john_doe" "john@example.com" "securepass123" None));
    (2, POST_books (Some (token_of "admin")) one_copy);
    (3, POST_loans (Some (token_of "john_doe")) (mkBorrowIn 1));
    (4, DELETE_books (Some (token_of "admin")) 1);
    (5, POST_loans_return (Some (token_of "john_doe")) 1);
    (6, DELETE_books (Some (token_of "admin")) 1) ].

(** The database after the first three requests of the scenario: John
    holds the only copy of Title 1. *)
Definition borrowed_db : Store :=
  (demo_serve (take 3 deletion_guard_scenario) fresh_db).1.

(** ** Requests, their credentials and their bodies *)

(** The bearer token of a route that depends on [get_current_user]; the
    other routes take none. *)
Definition authorization_of (req : Request) : option (option Token) :=
  match req with
  | GET_users_me a | GET_users_me_loans a | POST_books a _
  | DELETE_books a _ | POST_loans a _ | POST_loans_return a _ => Some a
  | POST_auth_signup _ | POST_auth_login _ _ | GET_books _ _ _ => None
  end.

(** The routes that depend on [require_admin]. *)
Definition admin_only (req : Request) : bool :=
  match req with
  | POST_books _ _ | DELETE_books _ _ => true
  | _ => false
  end.

(** The body of the request passes the constraints of its schema. *)
Definition body_valid (email_valid : string → bool) (req : Request) : bool :=
  match req with
  | POST_auth_signup data => SignupIn_valid email_valid data
  | POST_books _ payload => BookCreate_valid payload
  | _ => true
  end.

(** The outcome of a handler under another response model. *)
Definition respond {A B} (f : A → B) (out : Store * (error + A))
    : Store * (error + B) :=
  (out.1, match out.2 with inl e => inl e | inr a => inr (f a) end).

(** A handler that either succeeds or leaves the database as it was. *)
Definition all_or_nothing {A} (p : prog A) : Prop :=
  ∀ db e, (run p db).2 = inl e → (run p db).1 = db.

(** No two rows of a table agree on a column. *)
Definition unique_on {A B} (column : A → B) (m : gmap Z A) : Prop :=
  ∀ i j x y, m !! i = Some x → m !! j = Some y → column x = column y → i = j.

(** Every loan row refers to a user row and to a book row, and every book
    has at least one copy. *)
Definition loans_have_users (db : Store) : Prop :=
  ∀ lid l, loans db !! lid = Some l → is_Some (users db !! user_id l).

Definition loans_have_books (db : Store) : Prop :=
  ∀ lid l, loans db !! lid = Some l → is_Some (books db !! book_id l).

Definition books_have_copies (db : Store) : Prop :=
  ∀ bid b, books db !! bid = Some b → 1 ≤ total_copies b.

Definition well_referenced (db : Store) : Prop :=
  loans_have_users db ∧ loans_have_books db ∧ books_have_copies db.


(** * Properties *)

Ltac decide_true := apply (bool_decide_unpack _); vm_compute; exact I.

(** ** Tables: keys, rows and selections *)

Section Tables.
Context {A : Type}.
Implicit Types (m : gmap Z A) (r : row A).

#[local] Instance key_le_total : Total (@key_le A).
Proof. intros r1 r2. unfold key_le. lia. Qed.

#[local] Instance key_le_trans : Transitive (@key_le A).
Proof. intros r1 r2 r3. unfold key_le. lia. Qed.

Lemma rows_Permutation m : rows m ≡ₚ map_to_list m.
Proof. apply merge_sort_Permutation. Qed.

Lemma rows_sorted m : StronglySorted key_le (rows m).
Proof. apply StronglySorted_merge_sort; apply _. Qed.

Lemma elem_of_rows m i x : (i, x) ∈ rows m ↔ m !! i = Some x.
Proof. rewrite rows_Permutation. apply elem_of_map_to_list. Qed.

Lemma rows_insert_fresh m i x :
  m !! i = None → rows (<[i := x]> m) ≡ₚ (i, x) :: rows m.
Proof.
  intros Hi. rewrite !rows_Permutation. by apply map_to_list_insert.
Qed.

Lemma rows_lookup m i x :
  m !! i = Some x → rows m ≡ₚ (i, x) :: rows (delete i m).
Proof.
  intros Hi. rewrite !rows_Permutation. symmetry. by apply map_to_list_delete.
Qed.

Lemma rows_update m i x :
  rows (<[i := x]> m) ≡ₚ (i, x) :: rows (delete i m).
Proof.
  rewrite <- insert_delete_eq. apply rows_insert_fresh, lookup_delete_eq.
Qed.

Lemma max_key_bound m i : is_Some (m !! i) → i ≤ max_key m.
Proof.
  unfold max_key. revert i.
  apply (map_fold_weak_ind (λ acc m, ∀ i, is_Some (m !! i) → i ≤ acc)).
  - intros i [x Hx]. by rewrite lookup_empty in Hx.
  - intros j x m' acc _ IH i Hi.
    destruct (decide (i = j)) as [->|Hne]; [lia|].
    rewrite lookup_insert_ne in Hi by done. specialize (IH i Hi). lia.
Qed.

Lemma next_id_fresh m : m !! next_id m = None.
Proof.
  destruct (m !! next_id m) eqn:E; [|done].
  pose proof (max_key_bound m (next_id m) (mk_is_Some _ _ E)).
  unfold next_id in *. lia.
Qed.

Section Select.
Context (p : row A → Prop) `{!∀ r, Decision (p r)}.

Lemma elem_of_select m i x : (i, x) ∈ select p m ↔ p (i, x) ∧ m !! i = Some x.
Proof. unfold select. rewrite list_elem_of_filter, elem_of_rows. done. Qed.

Lemma select_nil m : select p m = [] ↔ ∀ i x, m !! i = Some x → ¬ p (i, x).
Proof.
  split.
  - intros E i x Hi Hp.
    assert ((i, x) ∈ select p m) as Hin by (apply elem_of_select; done).
    rewrite E in Hin. by apply elem_of_nil in Hin.
  - intros Hall. destruct (select p m) as [|[i x] l] eqn:E; [done|].
    assert ((i, x) ∈ select p m) as Hin by (rewrite E; left).
    apply elem_of_select in Hin as [Hp Hi]. by destruct (Hall i x Hi).
Qed.

Lemma first_select_None m :
  first (select p m) = None ↔ ∀ i x, m !! i = Some x → ¬ p (i, x).
Proof.
  rewrite <- select_nil. unfold first. destruct (select p m); naive_solver.
Qed.

Lemma first_select_Some m r :
  first (select p m) = Some r → p r ∧ m !! r.1 = Some r.2.
Proof.
  unfold first. intros E. destruct r as [i x].
  apply elem_of_select. destruct (select p m); simplify_eq/=. left.
Qed.

Lemma select_length_insert_fresh m i x :
  m !! i = None →
  length (select p (<[i := x]> m))
  = ((if decide (p (i, x)) then 1 else 0) + length (select p m))%nat.
Proof.
  intros Hi. unfold select. rewrite (rows_insert_fresh m i x Hi).
  rewrite filter_cons. by destruct (decide (p (i, x))).
Qed.

Lemma select_length_update m i x y :
  m !! i = Some x →
  ((if decide (p (i, x)) then 1 else 0) + length (select p (<[i := y]> m))
   = (if decide (p (i, y)) then 1 else 0) + length (select p m))%nat.
Proof.
  intros Hi. unfold select.
  rewrite (rows_update m i y), (rows_lookup m i x Hi), !filter_cons.
  destruct (decide (p (i, x))), (decide (p (i, y))); simpl; lia.
Qed.

Lemma select_sorted m : StronglySorted key_le (select p m).
Proof.
  unfold select. induction (rows_sorted m) as [|r l _ IH Hall]; [constructor|].
  rewrite filter_cons. destruct (decide (p r)); [|done].
  constructor; [done|]. rewrite Forall_forall in Hall |- *.
  intros r' [_ Hin]%list_elem_of_filter. by apply Hall.
Qed.

Lemma select_NoDup_keys m : NoDup (select p m).*1.
Proof.
  unfold select. eapply (sublist_NoDup _ (rows m).*1).
  - rewrite rows_Permutation. apply NoDup_fst_map_to_list.
  - apply fmap_sublist, sublist_filter.
Qed.

End Select.
End Tables.

(** ** Running handlers *)

Lemma exec_bind {A B} (p : prog A) (f : A → prog B) pend db :
  exec (p ≫= f) pend db =
  match exec p pend db with
  | (db', pend', inr a) => exec (f a) pend' db'
  | (db', pend', inl e) => (db', pend', inl e)
  end.
Proof.
  revert pend db. induction p as [a|e|R q k IH|w k IH|k IH]; intros pend db; cbn.
  - done.
  - done.
  - apply IH.
  - apply IH.
  - destruct (flush pend db) as [[db' ids]|]; [apply IH|done].
Qed.

Lemma run_bind {A B} (p : prog A) (f : A → prog B) db :
  run (p ≫= f) db =
  match exec p [] db with
  | (db', pend', inr a) => let '(db'', _, r) := exec (f a) pend' db' in (db'', r)
  | (db', _, inl e) => (db', inl e)
  end.
Proof.
  unfold run. rewrite exec_bind.
  destruct (exec p [] db) as [[db' pend'] [e|a]]; done.
Qed.

(** The one-action semantics agrees with [exec]: performing the next action
    of a thread and then running it to its end is running it to its end. *)
Lemma exec_step {A} (t : thread A) db :
  exec (code t) (pending t) db
  = let '(db', t') := step t db in exec (code t') (pending t') db'.
Proof.
  destruct t as [pend p]. unfold step. cbn.
  destruct p as [a|e|R q k|w k|k]; cbn; try done.
  destruct (flush pend db) as [[db' ids]|]; done.
Qed.

Lemma exec_steps {A} n (t : thread A) db :
  exec (code t) (pending t) db
  = let '(db', t') := steps n t db in exec (code t') (pending t') db'.
Proof.
  revert t db. induction n as [|n IH]; intros t db; [done|].
  cbn [steps]. rewrite exec_step. destruct (step t db) as [db' t']. apply IH.
Qed.

(** A thread left alone until it is finished ends as [run] says. *)
Lemma steps_run {A} n (p : prog A) db db' t r :
  steps n (spawn p) db = (db', t) → outcome t = Some r → run p db = (db', r).
Proof.
  intros Hs Ho. unfold run.
  change (exec p [] db) with (exec (code (spawn p)) (pending (spawn p)) db).
  rewrite (exec_steps n), Hs. unfold outcome in Ho.
  destruct (code t); simplify_eq/=; done.
Qed.

(** ** What each handler does to the database *)

Lemma run_fst_bind_ret {A B} (p : prog A) (f : A → B) db :
  (run (p ≫= λ a, mret (f a)) db).1 = (run p db).1.
Proof.
  unfold run. rewrite exec_bind.
  destruct (exec p [] db) as [[db' pend'] [e|a]]; done.
Qed.

Lemma read_only_bind {A B} (p : prog A) (f : A → prog B) :
  read_only p → (∀ a, read_only (f a)) → read_only (p ≫= f).
Proof.
  intros Hp Hf pend db. rewrite exec_bind.
  destruct (Hp pend db) as [[e|a] ->]; [by eexists|apply Hf].
Qed.

Lemma read_only_query {A R} (q : Store → R) (k : R → prog A) :
  (∀ r, read_only (k r)) → read_only (query q ≫= k).
Proof. intros Hk pend db. cbn. apply Hk. Qed.

Lemma read_only_ret {A} (a : A) : read_only (mret a).
Proof. intros pend db. by eexists. Qed.

Lemma read_only_raise {A} e : read_only (@Raise A e).
Proof. intros pend db. by eexists. Qed.

Lemma read_only_run {A} (p : prog A) db : read_only p → (run p db).1 = db.
Proof. intros Hp. unfold run. by destruct (Hp [] db) as [r ->]. Qed.

Section Handlers.

Variable settings : Settings.
Variable hash_pw : string → string.
Variable verify_pw : string → string → bool.
Variable email_valid : string → bool.

Lemma read_only_get_current_user now token :
  read_only (get_current_user settings now token).
Proof.
  unfold get_current_user.
  destruct (jwt_decode now token (SECRET_KEY settings)); [|apply read_only_raise].
  apply read_only_query. intros [u|]; [apply read_only_ret|apply read_only_raise].
Qed.

Lemma read_only_current_user now authorization :
  read_only (current_user settings now authorization).
Proof.
  unfold current_user, oauth2_scheme.
  destruct authorization as [token|]; [|apply read_only_raise].
  apply read_only_get_current_user.
Qed.

Lemma read_only_require_admin user : read_only (require_admin user).
Proof.
  unfold require_admin.
  destruct (is_admin user.2); [apply read_only_ret|apply read_only_raise].
Qed.

Lemma read_only_login now name password :
  read_only (login settings verify_pw now name password).
Proof.
  unfold login. apply read_only_query. intros [u|]; [|apply read_only_raise].
  destruct (verify_pw _ _); [apply read_only_ret|apply read_only_raise].
Qed.

Lemma read_only_my_loans user : read_only (my_loans user).
Proof. intros pend db. by eexists. Qed.

Lemma read_only_list_books cat available q :
  read_only (list_books cat available q).
Proof. intros pend db. by eexists. Qed.

(** [borrow], in closed form. *)
Lemma exec_borrow now data user db :
  exec (borrow now data user) [] db =
  let bid := borrow_book_id data in
  match books db !! bid with
  | None => (db, [], inl (HTTPException 404 "book not found"))
  | Some book =>
      if decide (available_copies book ≤ 0) then
        (db, [], inl (HTTPException 409 "no available copies"))
      else
        match first (active_loans_of user.1 bid db) with
        | Some _ => (db, [], inl (HTTPException 409 "already borrowed"))
        | None =>
            let loan := mkLoan user.1 bid now None in
            let lid := next_id (loans db) in
            (mkStore (users db)
               (<[bid := with_available_copies (available_copies book - 1) book]>
                  (books db))
               (<[lid := loan]> (loans db)),
             [], inr (lid, loan))
        end
  end.
Proof.
  unfold borrow. cbn.
  destruct (books db !! borrow_book_id data) as [book|] eqn:Hb; cbn; [|done].
  destruct (decide (available_copies book ≤ 0)); cbn; [done|].
  destruct (first _); cbn; [done|].
  rewrite Hb. cbn. by rewrite lookup_insert_eq.
Qed.

(** [return_book], in closed form. *)
Lemma exec_return_book now lid user db :
  exec (return_book now lid user) [] db =
  match loans db !! lid with
  | None => (db, [], inl (HTTPException 404 "loan not found"))
  | Some loan =>
      if bool_decide (user_id loan ≠ user.1) && negb (is_admin user.2) then
        (db, [], inl (HTTPException 403 "not your loan"))
      else
        match returned_at loan with
        | Some _ => (db, [], inl (HTTPException 409 "already returned"))
        | None =>
            match books db !! book_id loan with
            | None => (db, [SetReturnedAt lid now], inl (Unhandled "AttributeError"))
            | Some book =>
                (mkStore (users db)
                   (<[book_id loan :=
                        with_available_copies (available_copies book + 1) book]>
                      (books db))
                   (<[lid := with_returned_at now loan]> (loans db)),
                 [], inr (lid, with_returned_at now loan))
            end
        end
  end.
Proof.
  unfold return_book. cbn.
  destruct (loans db !! lid) as [loan|] eqn:Hl; cbn; [|done].
  destruct (bool_decide (user_id loan ≠ user.1) && negb (is_admin user.2)); cbn; [done|].
  destruct (returned_at loan) eqn:Hr; cbn; [done|].
  destruct (books db !! book_id loan) as [book|] eqn:Hb; cbn; [|done].
  rewrite Hl. cbn. rewrite Hb. cbn. by rewrite lookup_insert_eq.
Qed.

(** [delete_book], in closed form. *)
Lemma exec_delete_book bid admin db :
  exec (delete_book bid admin) [] db =
  match books db !! bid with
  | None => (db, [], inl (HTTPException 404 "book not found"))
  | Some _ =>
      if decide (count (active_loans bid db) = 0) then
        if decide (select (λ r, book_id r.2 = bid) (loans db) = []) then
          (mkStore (users db) (delete bid (books db)) (loans db), [], inr tt)
        else (db, [], inl (Unhandled "sqlalchemy.exc"))
      else (db, [], inl (HTTPException 409 "book has active loans"))
  end.
Proof.
  unfold delete_book. cbn.
  destruct (books db !! bid) as [book|] eqn:Hb; cbn; [|done].
  match goal with |- context [decide (?n = 0)] => destruct (decide (n = 0)) end;
    cbn; [|done].
  unfold detach_loans.
  match goal with |- context [decide (?l = [])] => destruct (decide (l = [])) end;
    done.
Qed.

(** [create_book], in closed form. *)
Lemma exec_create_book now payload admin db :
  exec (create_book now payload admin) [] db =
  match first (select (λ r, isbn r.2 = bc_isbn payload) (books db)) with
  | Some _ => (db, [], inl (HTTPException 400 "ISBN already exists"))
  | None =>
      let book := mkBook (bc_title payload) (bc_author payload) (bc_isbn payload)
                         (bc_category payload) (bc_total_copies payload)
                         (bc_total_copies payload) now in
      let bid := next_id (books db) in
      (mkStore (users db) (<[bid := book]> (books db)) (loans db),
       [], inr (bid, book))
  end.
Proof.
  unfold create_book. cbn.
  match goal with |- context [first ?l] => destruct (first l) eqn:Hf end;
    cbn; [done|].
  unfold first in Hf. apply head_None in Hf.
  match goal with |- context [decide (?l = [])] => destruct (decide (l = [])) end;
    [|done].
  cbn. by rewrite ?lookup_insert_eq.
Qed.

(** [signup], in closed form. *)
Lemma exec_signup now data db :
  exec (signup hash_pw now data) [] db =
  match first (select (λ r, username r.2 = signup_username data
                            ∨ email r.2 = signup_email data) (users db)) with
  | Some _ => (db, [], inl (HTTPException 400 "username or email already exists"))
  | None =>
      let user := mkUser (signup_username data) (signup_email data)
                         (signup_full_name data)
                         (hash_pw (signup_password data)) false now in
      let uid := next_id (users db) in
      (mkStore (<[uid := user]> (users db)) (books db) (loans db),
       [], inr (uid, user))
  end.
Proof.
  unfold signup. cbn.
  match goal with |- context [first ?l] => destruct (first l) eqn:Hf end;
    cbn; [done|].
  unfold first in Hf. apply head_None in Hf.
  match goal with |- context [decide (?l = [])] => destruct (decide (l = [])) end;
    [|done].
  cbn. by rewrite ?lookup_insert_eq.
Qed.

(** The bootstrap block, in closed form. *)
Lemma exec_bootstrap_admin now db :
  exec (bootstrap_admin settings hash_pw now) [] db =
  let name := ADMIN_DEFAULT_USERNAME settings in
  match user_by_username (Some name) db with
  | Some _ => (db, [], inr tt)
  | None =>
      if decide (select (λ r, username r.2 = name ∨ email r.2 = name +:+ "@local")
                        (users db) = [])
      then (mkStore (<[next_id (users db) := admin_account settings hash_pw now]>
                       (users db)) (books db) (loans db),
            [], inr tt)
      else (db, [], inl (Unhandled "sqlalchemy.exc"))
  end.
Proof.
  unfold bootstrap_admin, user_by_username. cbn.
  destruct (first _); cbn; [done|].
  match goal with |- context [decide (?l = [])] => destruct (decide (l = [])) end;
    done.
Qed.

End Handlers.

(** ** Every request takes one of six transitions *)

Lemma run_bind_read_only {A B} (p : prog A) (f : A → prog B) db :
  read_only p →
  (run (p ≫= f) db).1 = db ∨ ∃ a, run (p ≫= f) db = run (f a) db.
Proof.
  intros Hp. rewrite run_bind. destruct (Hp [] db) as [[e|a] ->].
  - by left.
  - right. by exists a.
Qed.

Section Transitions.

Variable settings : Settings.
Variable hash_pw : string → string.
Variable verify_pw : string → string → bool.
Variable email_valid : string → bool.

Lemma app_transition now req db :
  transition hash_pw now db
    (run (app settings hash_pw verify_pw email_valid now req) db).1.
Proof.
  destruct req; unfold app.
  - (* signup *)
    destruct (SignupIn_valid _ data); [|constructor].
    rewrite run_fst_bind_ret. constructor.
  - (* login *)
    rewrite run_fst_bind_ret, read_only_run by apply read_only_login. constructor.
  - (* me *)
    destruct (run_bind_read_only (current_user settings now authorization)
      (λ user, me user ≫= λ u, mret (UserOut u)) db
      (read_only_current_user _ _ _)) as [->|[user ->]]; constructor.
  - (* my_loans *)
    destruct (run_bind_read_only (current_user settings now authorization)
      (λ user, my_loans user ≫= λ ls, mret (LoansOut ls)) db
      (read_only_current_user _ _ _)) as [->|[user ->]]; constructor.
  - (* create_book *)
    destruct (BookCreate_valid payload) eqn:Hv; [|constructor].
    destruct (run_bind_read_only (current_user settings now authorization)
      (λ user, require_admin user ≫= λ admin,
         create_book now payload admin ≫= λ b, mret (BookOut b)) db
      (read_only_current_user _ _ _)) as [->|[user ->]]; [constructor|].
    destruct (run_bind_read_only (require_admin user)
      (λ admin, create_book now payload admin ≫= λ b, mret (BookOut b)) db
      (read_only_require_admin _)) as [->|[admin ->]]; [constructor|].
    rewrite run_fst_bind_ret. by constructor.
  - (* list_books *)
    rewrite run_fst_bind_ret, read_only_run by apply read_only_list_books.
    constructor.
  - (* delete_book *)
    destruct (run_bind_read_only (current_user settings now authorization)
      (λ user, require_admin user ≫= λ admin,
         delete_book bid admin ≫= λ _, mret NoContent) db
      (read_only_current_user _ _ _)) as [->|[user ->]]; [constructor|].
    destruct (run_bind_read_only (require_admin user)
      (λ admin, delete_book bid admin ≫= λ _, mret NoContent) db
      (read_only_require_admin _)) as [->|[admin ->]]; [constructor|].
    rewrite (run_fst_bind_ret _ (λ _, NoContent)). constructor.
  - (* borrow *)
    destruct (run_bind_read_only (current_user settings now authorization)
      (λ user, borrow now data user ≫= λ l, mret (LoanOut l)) db
      (read_only_current_user _ _ _)) as [->|[user ->]]; [constructor|].
    rewrite run_fst_bind_ret. constructor.
  - (* return_book *)
    destruct (run_bind_read_only (current_user settings now authorization)
      (λ user, return_book now lid user ≫= λ l, mret (LoanOut l)) db
      (read_only_current_user _ _ _)) as [->|[user ->]]; [constructor|].
    rewrite run_fst_bind_ret. constructor.
Qed.

End Transitions.

(** ** The copy-accounting invariant is kept by every handler *)

Lemma active_loans_cons_fresh bid db ls lid l :
  loans db !! lid = None → ls = <[lid := l]> (loans db) →
  length (active_loans bid (mkStore (users db) (books db) ls))
  = ((if decide (book_id l = bid ∧ returned_at l = None) then 1 else 0)
     + length (active_loans bid db))%nat.
Proof.
  intros Hl ->. unfold active_loans. cbn [loans].
  by rewrite select_length_insert_fresh.
Qed.

Lemma no_active_loans bid db :
  count (active_loans bid db) = 0 →
  ∀ lid l, loans db !! lid = Some l → returned_at l = None → book_id l ≠ bid.
Proof.
  unfold count. intros Hc lid l Hl Hr Hb.
  assert (active_loans bid db = []) as Hnil
    by (destruct (active_loans bid db); [done|simpl in Hc; lia]).
  unfold active_loans in Hnil. rewrite select_nil in Hnil.
  by apply (Hnil lid l Hl).
Qed.

Lemma borrow_invariant now data user db :
  invariant db → invariant (run (borrow now data user) db).1.
Proof.
  intros (H1 & H3 & H4). unfold run. rewrite exec_borrow. cbn zeta.
  destruct (books db !! borrow_book_id data) as [book|] eqn:Hb; [|done].
  destruct (decide (available_copies book ≤ 0)); [done|].
  destruct (first _); [done|]. cbn [fst].
  set (bid := borrow_book_id data) in *.
  set (loan := mkLoan user.1 bid now None).
  assert (∀ bid',
    count (active_loans bid'
      (mkStore (users db)
         (<[bid := with_available_copies (available_copies book - 1) book]> (books db))
         (<[next_id (loans db) := loan]> (loans db))))
    = (if decide (bid = bid') then 1 else 0) + count (active_loans bid' db)) as Hcount.
  { intros bid'. unfold count, active_loans. cbn [loans].
    rewrite select_length_insert_fresh by apply next_id_fresh. cbn.
    destruct (decide (bid = bid' ∧ None = None)) as [[Hy _]|Hn];
      destruct (decide (bid = bid')) as [Heq|Hne];
      first [lia | by destruct Hne | by destruct Hn; split]. }
  split; [|split].
  - intros bid' b'. cbn [books]. rewrite Hcount.
    destruct (decide (bid = bid')) as [<-|Hne].
    + rewrite lookup_insert_eq. intros [= <-]. cbn.
      specialize (H1 _ _ Hb). lia.
    + rewrite lookup_insert_ne by done. intros Hb'.
      specialize (H1 _ _ Hb'). lia.
  - intros lid l. cbn [loans books].
    destruct (decide (next_id (loans db) = lid)) as [<-|Hne].
    + rewrite lookup_insert_eq. intros [= <-] _. cbn.
      by rewrite lookup_insert_eq.
    + rewrite lookup_insert_ne by done. intros Hl Hr.
      apply lookup_insert_is_Some'. right. by apply (H3 lid).
  - intros bid' b'. cbn [books].
    destruct (decide (bid = bid')) as [<-|Hne].
    + rewrite lookup_insert_eq. intros [= <-]. cbn.
      specialize (H4 _ _ Hb). lia.
    + rewrite lookup_insert_ne by done. apply H4.
Qed.

Lemma return_book_invariant now lid user db :
  invariant db → invariant (run (return_book now lid user) db).1.
Proof.
  intros (H1 & H3 & H4). unfold run. rewrite exec_return_book.
  destruct (loans db !! lid) as [loan|] eqn:Hl; [|done].
  destruct (bool_decide _ && negb _); [done|].
  destruct (returned_at loan) eqn:Hr; [done|].
  destruct (books db !! book_id loan) as [book|] eqn:Hb; [|done]. cbn [fst].
  set (bid := book_id loan) in *.
  assert (∀ bid',
    (if decide (bid = bid') then 1 else 0) +
    count (active_loans bid'
      (mkStore (users db)
         (<[bid := with_available_copies (available_copies book + 1) book]> (books db))
         (<[lid := with_returned_at now loan]> (loans db))))
    = count (active_loans bid' db)) as Hcount.
  { intros bid'. unfold count, active_loans. cbn [loans].
    pose proof (select_length_update
      (λ r : row Loan, book_id r.2 = bid' ∧ returned_at r.2 = None)
      (loans db) lid loan (with_returned_at now loan) Hl) as Hu.
    cbn in Hu. fold bid in Hu. rewrite Hr in Hu.
    destruct (decide (bid = bid' ∧ None = None)) as [[Hy _]|Hn];
      destruct (decide (bid = bid' ∧ Some now = None)) as [[_ [=]]|_];
      destruct (decide (bid = bid')) as [Heq|Hne];
      first [lia | by destruct Hne | by destruct Hn; split]. }
  split; [|split].
  - intros bid' b'. cbn [books]. specialize (Hcount bid').
    destruct (decide (bid = bid')) as [<-|Hne].
    + rewrite lookup_insert_eq. intros [= <-]. cbn.
      specialize (H1 _ _ Hb). lia.
    + rewrite lookup_insert_ne by done. intros Hb'.
      specialize (H1 _ _ Hb'). lia.
  - intros lid' l. cbn [loans books].
    destruct (decide (lid = lid')) as [<-|Hne].
    + rewrite lookup_insert_eq. by intros [= <-].
    + rewrite lookup_insert_ne by done. intros Hl' Hr'.
      apply lookup_insert_is_Some'. right. by apply (H3 lid').
  - intros bid' b'. cbn [books]. specialize (Hcount bid').
    destruct (decide (bid = bid')) as [<-|Hne].
    + rewrite lookup_insert_eq. intros [= <-]. cbn.
      specialize (H1 _ _ Hb). specialize (H4 _ _ Hb).
      unfold count in *. lia.
    + rewrite lookup_insert_ne by done. apply H4.
Qed.

Lemma delete_book_invariant bid admin db :
  invariant db → invariant (run (delete_book bid admin) db).1.
Proof.
  intros (H1 & H3 & H4). unfold run. rewrite exec_delete_book.
  destruct (books db !! bid) as [book|] eqn:Hb; [|done].
  destruct (decide (count (active_loans bid db) = 0)) as [Hc|]; [|done].
  destruct (decide (_ = [])); [|done]. cbn [fst].
  split; [|split].
  - intros bid' b'. cbn [books]. intros Hb'%lookup_delete_Some.
    destruct Hb' as [_ Hb']. apply (H1 _ _ Hb').
  - intros lid l. cbn [loans books]. intros Hl Hr.
    rewrite lookup_delete_ne; [by apply (H3 lid)|].
    intros Heq. by apply (no_active_loans bid db Hc lid l).
  - intros bid' b'. cbn [books]. intros Hb'%lookup_delete_Some.
    destruct Hb' as [_ Hb']. apply (H4 _ _ Hb').
Qed.

Lemma create_book_invariant now payload admin db :
  0 ≤ bc_total_copies payload →
  invariant db → invariant (run (create_book now payload admin) db).1.
Proof.
  intros Htotal (H1 & H3 & H4). unfold run. rewrite exec_create_book.
  destruct (first _); [done|]. cbn [fst].
  pose proof (next_id_fresh (books db)) as Hfresh.
  split; [|split].
  - intros bid b. cbn [books].
    destruct (decide (next_id (books db) = bid)) as [<-|Hne].
    + rewrite lookup_insert_eq. intros [= <-]. cbn.
      assert (active_loans (next_id (books db)) db = []) as Hnil.
      { unfold active_loans. apply select_nil. intros lid l Hl [Hbid Hr].
        cbn in Hbid, Hr. destruct (H3 lid l Hl Hr) as [b Hsome]. congruence. }
      change (active_loans (next_id (books db)) _)
        with (active_loans (next_id (books db)) db).
      rewrite Hnil. unfold count. simpl. lia.
    + rewrite lookup_insert_ne by done. apply H1.
  - intros lid l. cbn [loans books]. intros Hl Hr.
    apply lookup_insert_is_Some'. right. by apply (H3 lid).
  - intros bid b. cbn [books].
    destruct (decide (next_id (books db) = bid)) as [<-|Hne].
    + rewrite lookup_insert_eq. intros [= <-]. cbn. lia.
    + rewrite lookup_insert_ne by done. apply H4.
Qed.

Lemma users_only_invariant db us :
  invariant db → invariant (mkStore us (books db) (loans db)).
Proof. done. Qed.

Lemma signup_invariant hash_pw now data db :
  invariant db → invariant (run (signup hash_pw now data) db).1.
Proof.
  intros Hinv. unfold run. rewrite exec_signup.
  destruct (first _); [done|]. by apply users_only_invariant.
Qed.

Lemma bootstrap_admin_invariant settings hash_pw now db :
  invariant db → invariant (run (bootstrap_admin settings hash_pw now) db).1.
Proof.
  intros Hinv. unfold run. rewrite exec_bootstrap_admin. cbn zeta.
  destruct (user_by_username _ db); [done|].
  destruct (decide _); [|done]. by apply users_only_invariant.
Qed.

Lemma BookCreate_valid_total payload :
  BookCreate_valid payload = true → 1 ≤ bc_total_copies payload.
Proof.
  unfold BookCreate_valid. rewrite !andb_true_iff.
  intros (_ & H). by apply bool_decide_eq_true in H.
Qed.

Lemma transition_invariant hash_pw now db db' :
  transition hash_pw now db db' → invariant db → invariant db'.
Proof.
  intros [|data|payload admin Hv|bid admin|data user|lid user] Hinv.
  - done.
  - by apply signup_invariant.
  - apply create_book_invariant; [|done].
    apply BookCreate_valid_total in Hv. lia.
  - by apply delete_book_invariant.
  - by apply borrow_invariant.
  - by apply return_book_invariant.
Qed.

(** ** At most one Active Loan per (User, Title) pair *)











(** ** Accounts *)

Lemma borrow_users now data user db :
  users (run (borrow now data user) db).1 = users db.
Proof.
  unfold run. rewrite exec_borrow. cbn zeta.
  destruct (books db !! _); [|done]. destruct (decide _); [done|].
  by destruct (first _).
Qed.

Lemma return_book_users now lid user db :
  users (run (return_book now lid user) db).1 = users db.
Proof.
  unfold run. rewrite exec_return_book.
  destruct (loans db !! lid) as [loan|]; [|done].
  destruct (_ && _); [done|]. destruct (returned_at loan); [done|].
  by destruct (books db !! _).
Qed.

Lemma delete_book_users bid admin db :
  users (run (delete_book bid admin) db).1 = users db.
Proof.
  unfold run. rewrite exec_delete_book.
  destruct (books db !! bid); [|done].
  destruct (decide _); [|done]. by destruct (decide _).
Qed.

Lemma create_book_users now payload admin db :
  users (run (create_book now payload admin) db).1 = users db.
Proof. unfold run. rewrite exec_create_book. by destruct (first _). Qed.

Section Accounts.

Variable settings : Settings.
Variable hash_pw : string → string.
Variable verify_pw : string → string → bool.
Variable email_valid : string → bool.

Lemma transition_users now db db' :
  transition hash_pw now db db' →
  users db' = users db ∨ ∃ data, db' = (run (signup hash_pw now data) db).1.
Proof.
  intros [|data|payload admin Hv|bid admin|data user|lid user].
  - by left.
  - right. by exists data.
  - left. apply create_book_users.
  - left. apply delete_book_users.
  - left. apply borrow_users.
  - left. apply return_book_users.
Qed.

(** Inserting an account under a handle nobody has keeps handles unique. *)
Lemma usernames_unique_insert db u bs ls :
  usernames_unique db →
  (∀ i v, users db !! i = Some v → username v ≠ username u) →
  usernames_unique (mkStore (<[next_id (users db) := u]> (users db)) bs ls).
Proof.
  intros Huniq Hfree i j v w. cbn [users].
  pose proof (next_id_fresh (users db)) as Hfresh.
  destruct (decide (next_id (users db) = i)) as [<-|Hi];
    destruct (decide (next_id (users db) = j)) as [<-|Hj];
    rewrite ?lookup_insert_eq, ?lookup_insert_ne by done.
  - done.
  - intros [= <-] Hw Heq. destruct (Hfree j w Hw). done.
  - intros Hv [= <-] Heq. destruct (Hfree i v Hv). done.
  - apply Huniq.
Qed.

Lemma signup_accounts now data db :
  admins_seeded settings hash_pw db ∧ usernames_unique db →
  let db' := (run (signup hash_pw now data) db).1 in
  admins_seeded settings hash_pw db' ∧ usernames_unique db'.
Proof.
  intros [Hadm Huniq]. unfold run. rewrite exec_signup.
  destruct (first _) eqn:Hfirst; [done|]. cbn [fst].
  pose proof (proj1 (first_select_None _ _) Hfirst) as Hnone. split.
  - intros uid u. cbn [users].
    destruct (decide (next_id (users db) = uid)) as [<-|Hne].
    + rewrite lookup_insert_eq. by intros [= <-].
    + rewrite lookup_insert_ne by done. apply Hadm.
  - apply usernames_unique_insert; [done|].
    intros i v Hv Heq. apply (Hnone i v Hv). by left.
Qed.

Lemma bootstrap_admin_accounts now db :
  admins_seeded settings hash_pw db ∧ usernames_unique db →
  let db' := (run (bootstrap_admin settings hash_pw now) db).1 in
  admins_seeded settings hash_pw db' ∧ usernames_unique db'.
Proof.
  intros [Hadm Huniq]. unfold run. rewrite exec_bootstrap_admin. cbn zeta.
  unfold user_by_username.
  destruct (first _) eqn:Hfirst; [done|].
  destruct (decide _); [|done]. cbn [fst].
  pose proof (proj1 (first_select_None _ _) Hfirst) as Hnone. split.
  - intros uid u. cbn [users].
    destruct (decide (next_id (users db) = uid)) as [<-|Hne].
    + rewrite lookup_insert_eq. intros [= <-] _. by exists now.
    + rewrite lookup_insert_ne by done. apply Hadm.
  - apply usernames_unique_insert; [done|].
    intros i v Hv Heq. by apply (Hnone i v Hv).
Qed.

Lemma reachable_accounts db :
  reachable settings hash_pw verify_pw email_valid db →
  admins_seeded settings hash_pw db ∧ usernames_unique db.
Proof.
  induction 1 as [|now db _ IH|now req db _ IH].
  - split.
    + intros uid u Hu. cbn in Hu. by rewrite lookup_empty in Hu.
    + intros i j u v Hu. cbn in Hu. by rewrite lookup_empty in Hu.
  - by apply bootstrap_admin_accounts.
  - destruct (transition_users now db _
      (app_transition settings hash_pw verify_pw email_valid now req db))
      as [Hsame|[data ->]].
    + destruct IH as [Hadm Huniq]. split.
      * intros uid u. rewrite Hsame. apply Hadm.
      * intros i j u v. rewrite Hsame. apply Huniq.
    + by apply signup_accounts.
Qed.


Lemma reachable_invariant db :
  reachable settings hash_pw verify_pw email_valid db → invariant db.
Proof.
  induction 1 as [|now db _ IH|now req db _ IH].
  - decide_true.
  - by apply bootstrap_admin_invariant.
  - eapply transition_invariant; [apply app_transition|done].
Qed.

End Accounts.

(** ** Tokens *)

Lemma jwt_decode_Some now token key payload :
  jwt_decode now token key = Some payload ↔
  token = Signed key payload
  ∧ ¬ token_expired now token.
Proof.
  destruct token as [raw|k c]; cbn.
  { split; [done|]. by intros [? _]. }
  destruct (decide (k = key)) as [->|Hne].
  - destruct (exp c) as [e|]; [destruct (decide (e < now))|].
    + split; [done|]. intros [_ Hn]. by destruct Hn.
    + split; [by intros [= ->]|]. by intros [[= ->] _].
    + split; [intros [= ->]; split; [done|tauto]|]. by intros [[= ->] _].
  - split; [done|]. intros [[= -> ->] _]. done.
Qed.

Lemma jwt_decode_None now token key :
  jwt_decode now token key = None ↔
  token_malformed token ∨ signature_invalid key token ∨ token_expired now token.
Proof.
  destruct token as [raw|k c]; cbn.
  { split; [by left|done]. }
  destruct (decide (k = key)) as [->|Hne].
  - destruct (exp c) as [e|]; [destruct (decide (e < now))|].
    + split; [by do 2 right|done].
    + split; [done|]. intros [[]|[Hk|He]]; [by destruct Hk|by lia].
    + split; [done|]. intros [[]|[Hk|[]]]. by destruct Hk.
  - split; [by right; left|done].
Qed.

Lemma run_get_current_user settings now token db :
  run (get_current_user settings now token) db =
  match jwt_decode now token (SECRET_KEY settings) with
  | None => (db, inl credentials_exception)
  | Some payload =>
      match user_by_username (sub payload) db with
      | None => (db, inl credentials_exception)
      | Some user => (db, inr user)
      end
  end.
Proof.
  unfold run, get_current_user.
  destruct (jwt_decode _ _ _) as [payload|]; [|done]. cbn.
  by destruct (user_by_username _ db).
Qed.

Lemma user_by_username_Some name db user :
  user_by_username name db = Some user →
  name = Some (username user.2) ∧ users db !! user.1 = Some user.2.
Proof.
  destruct name as [n|]; [|done]. cbn. intros Hf.
  apply first_select_Some in Hf as [Hn Hu]. cbn in Hn. by subst n.
Qed.

Lemma user_by_username_mono name db db' :
  users db ⊆ users db' →
  is_Some (user_by_username name db) → is_Some (user_by_username name db').
Proof.
  intros Hsub [user Hu]. destruct name as [n|]; [|done]. cbn in *.
  apply first_select_Some in Hu as [Hn Hu].
  destruct (first _) eqn:Hf; [done|].
  pose proof (proj1 (first_select_None _ _) Hf user.1 user.2) as Hnone.
  destruct Hnone; [|by destruct user].
  by eapply lookup_weaken.
Qed.

Section Tokens.

Variable settings : Settings.
Variable hash_pw : string → string.
Variable verify_pw : string → string → bool.
Variable email_valid : string → bool.

Lemma signup_users_mono now data db :
  users db ⊆ users (run (signup hash_pw now data) db).1.
Proof.
  unfold run. rewrite exec_signup. destruct (first _); [done|].
  cbn. apply insert_subseteq, next_id_fresh.
Qed.

Lemma bootstrap_admin_users_mono now db :
  users db ⊆ users (run (bootstrap_admin settings hash_pw now) db).1.
Proof.
  unfold run. rewrite exec_bootstrap_admin. cbn zeta.
  destruct (user_by_username _ db); [done|]. destruct (decide _); [|done].
  cbn. apply insert_subseteq, next_id_fresh.
Qed.

(** No request removes or changes a user row. *)
Lemma later_users_mono db db' :
  later settings hash_pw verify_pw email_valid db db' → users db ⊆ users db'.
Proof.
  induction 1 as [|now db' _ IH|now req db' _ IH]; [done| |].
  - etrans; [exact IH|]. apply bootstrap_admin_users_mono.
  - etrans; [exact IH|].
    destruct (transition_users hash_pw now db' _
      (app_transition settings hash_pw verify_pw email_valid now req db'))
      as [->|[data ->]]; [done|]. apply signup_users_mono.
Qed.

Lemma run_login now name password db :
  run (login settings verify_pw now name password) db =
  match user_by_username (Some name) db with
  | Some user =>
      if verify_pw password (password_hash user.2)
      then (db, inr (create_access_token settings now (username user.2)))
      else (db, inl (HTTPException 401 "invalid credentials"))
  | None => (db, inl (HTTPException 401 "invalid credentials"))
  end.
Proof.
  unfold run, login, user_by_username. cbn.
  destruct (first _) as [user|]; [|done]. cbn.
  by destruct (verify_pw _ _).
Qed.

End Tokens.

(** ** LIKE patterns and substrings *)

Lemma like_percent p s :
  like ("%"%char :: p) s
  = like p s || match s with [] => false | _ :: s' => like ("%"%char :: p) s' end.
Proof. by destruct s. Qed.

Lemma like_literal c p s :
  c ≠ "%"%char → c ≠ "_"%char →
  like (c :: p) s
  = match s with [] => false | d :: s' => bool_decide (c = d) && like p s' end.
Proof.
  intros H1 H2. cbn [like].
  destruct (decide (c = "%"%char)); [done|].
  by destruct (decide (c = "_"%char)).
Qed.

Lemma like_any s : like ["%"%char] s = true.
Proof.
  induction s as [|a s IH]; [done|].
  rewrite like_percent, IH. by rewrite orb_true_r.
Qed.

Lemma like_prefix q s :
  wildcard_free q → like (q ++ ["%"%char]) s = starts_with q s.
Proof.
  intros Hq. revert s. induction Hq as [|c q [H1 H2] _ IH]; intros s.
  - apply like_any.
  - change ((c :: q) ++ ["%"%char]) with (c :: (q ++ ["%"%char])).
    rewrite like_literal by done. destruct s as [|d s]; [done|].
    cbn [starts_with]. by rewrite IH.
Qed.

(** Without wildcards in [q], [LIKE '%q%'] is the substring test. *)
Lemma like_infix q s :
  wildcard_free q → like ("%"%char :: q ++ ["%"%char]) s = contains q s.
Proof.
  intros Hq. induction s as [|a s IH].
  - rewrite like_percent, like_prefix by done. by destruct q.
  - rewrite like_percent, like_prefix, IH by done. done.
Qed.

Lemma lower_ascii_wildcard c :
  (lower_ascii c = "%"%char → c = "%"%char)
  ∧ (lower_ascii c = "_"%char → c = "_"%char).
Proof.
  destruct c as [[] [] [] [] [] [] [] []]; vm_compute; split; congruence.
Qed.

Lemma lower_wildcard_free q : wildcard_free q → wildcard_free (lower q).
Proof.
  unfold wildcard_free, lower. rewrite Forall_fmap. intros Hq.
  eapply Forall_impl; [exact Hq|].
  intros c [H1 H2]. cbn. pose proof (lower_ascii_wildcard c) as [L1 L2].
  split; intros E; [by apply H1, L1|by apply H2, L2].
Qed.

Lemma list_ascii_of_string_app s1 s2 :
  String.list_ascii_of_string (s1 +:+ s2)
  = String.list_ascii_of_string s1 ++ String.list_ascii_of_string s2.
Proof. induction s1 as [|a s1 IH]; [done|]. simpl. by f_equal. Qed.

(** On a [q] with neither [%] nor [_], the filter of [list_books] is the
    case-insensitive substring test. *)
Lemma ilike_contains column q :
  wildcard_free (String.list_ascii_of_string q) →
  ilike column ("%" +:+ q +:+ "%") = contains_ci column q.
Proof.
  intros Hq. unfold ilike, contains_ci.
  rewrite !list_ascii_of_string_app. unfold lower at 1.
  rewrite !fmap_app. cbn [String.list_ascii_of_string fmap list_fmap app].
  change (lower_ascii "%") with "%"%char.
  apply like_infix. by apply lower_wildcard_free.
Qed.

(** ** Two borrowers of the last copy *)

Lemma next_id_insert_ne {A} (m : gmap Z A) (x : A) :
  next_id (<[next_id m := x]> m) ≠ next_id m.
Proof.
  intros E. pose proof (next_id_fresh (<[next_id m := x]> m)) as Hfresh.
  rewrite E in Hfresh. by rewrite lookup_insert_eq in Hfresh.
Qed.

(** One after the other, the second borrower of the last copy is refused. *)
Lemma last_copy_in_turn now1 now2 bid (u1 u2 : row User) db book :
  books db !! bid = Some book → available_copies book = 1 →
  active_loans_of u1.1 bid db = [] →
  ∃ db1 l1,
    run (borrow now1 (mkBorrowIn bid) u1) db = (db1, inr l1)
    ∧ run (borrow now2 (mkBorrowIn bid) u2) db1
      = (db1, inl (HTTPException 409 "no available copies"))
    ∧ available_copies <$> books db1 !! bid = Some 0.
Proof.
  intros Hb Ha H1. unfold run. eexists _, _. split; [|split].
  - rewrite exec_borrow. cbn. rewrite Hb, Ha, H1. cbn. reflexivity.
  - rewrite exec_borrow. cbn. by rewrite lookup_insert_eq.
  - cbn. by rewrite lookup_insert_eq.
Qed.

(** * The claims *)

(** C1.  After any request served from a state that satisfies the
    invariant (I1, I3 and I4), the invariant holds again: every Title has
    [0 ≤ available_copies ≤ total_copies] and [available_copies] is
    [total_copies] minus the number of its Active Loans.  The requests
    include createTitle, borrow, returnLoan and deleteTitle. *)
Theorem copy_accounting_preserved settings hash_pw verify_pw email_valid now req db :
  invariant db →
  let db' := (run (app settings hash_pw verify_pw email_valid now req) db).1 in
  invariant db' ∧
  ∀ bid b, books db' !! bid = Some b →
    0 ≤ available_copies b ≤ total_copies b ∧
    available_copies b = total_copies b - count (active_loans bid db').
Proof.
  intros Hinv db'.
  assert (invariant db') as Hinv'.
  { eapply transition_invariant; [apply app_transition|done]. }
  split; [done|]. destruct Hinv' as (H1 & _ & H4).
  intros bid b Hb. split; [by apply (H4 bid)|by apply H1].
Qed.

Lemma copy_accounting_preserved_witness :
  invariant demo_db
  ∧ let db' := (run (app demo_settings demo_hash_pw demo_verify_pw demo_email_valid
                         10 (POST_loans (Some (token_of "jane_roe")) (mkBorrowIn 2)))
                    demo_db).1 in
    invariant db' ∧
    ∀ bid b, books db' !! bid = Some b →
      0 ≤ available_copies b ≤ total_copies b ∧
      available_copies b = total_copies b - count (active_loans bid db').
Proof.
  assert (invariant demo_db) as Hinv by decide_true.
  split; [exact Hinv|]. by apply copy_accounting_preserved.
Defined.





(** A Loan whose Title is gone cannot be returned: the handler fails on the
    missing book and nothing is committed. *)
Lemma return_book_dangling now lid user db loan :
  loans db !! lid = Some loan →
  user_id loan = user.1 ∨ is_admin user.2 = true →
  returned_at loan = None →
  books db !! book_id loan = None →
  run (return_book now lid user) db = (db, inl (Unhandled "AttributeError")).
Proof.
  intros Hl Hown Hr Hb. unfold run. rewrite exec_return_book, Hl, Hr, Hb.
  destruct Hown as [Ho| ->]; [|by rewrite andb_false_r].
  by rewrite bool_decide_eq_false_2 by (intros Hne; by destruct Hne).
Qed.

(** C4.  Two requests to borrow the last copy of a Title, from two users
    with no Active Loan on it, served at the same time: when both handlers
    have run their checks before either commits, both commit.  Both answer
    201 with a Loan of their own, [available_copies] ends at 0, and the
    Title has two more Active Loans than before, which breaks I1. *)
Theorem last_copy_race now1 now2 bid (u1 u2 : row User) db book :
  books db !! bid = Some book → available_copies book = 1 →
  active_loans_of u1.1 bid db = [] → active_loans_of u2.1 bid db = [] →
  let schedule := [true; true; false; false;
                   true; true; true; true;
                   false; false; false; false] in
  let '(db', t1, t2) :=
    interleave schedule (spawn (borrow now1 (mkBorrowIn bid) u1))
                        (spawn (borrow now2 (mkBorrowIn bid) u2)) db in
  ∃ l1 l2,
    outcome t1 = Some (inr l1) ∧ outcome t2 = Some (inr l2)
    ∧ status 201 <$> outcome t1 = Some 201
    ∧ status 201 <$> outcome t2 = Some 201
    ∧ l1.1 ≠ l2.1
    ∧ loans db' !! l1.1 = Some (mkLoan u1.1 bid now1 None)
    ∧ loans db' !! l2.1 = Some (mkLoan u2.1 bid now2 None)
    ∧ available_copies <$> books db' !! bid = Some 0
    ∧ length (active_loans bid db') = (2 + length (active_loans bid db))%nat
    ∧ (I1 db → ¬ I1 db').
Proof.
  intros Hb Ha H1 H2.
  repeat (cbn; first [ rewrite Hb | rewrite Ha | rewrite H1 | rewrite H2
                     | rewrite decide_False by lia
                     | rewrite lookup_insert_eq
                     | progress unfold first ]).
  eexists _, _. do 4 (split; [reflexivity|]). cbn.
  pose proof (next_id_insert_ne (loans db) (mkLoan u1.1 bid now1 None)) as Hne.
  split; [done|].
  split; [by rewrite lookup_insert_ne, lookup_insert_eq|].
  split; [by rewrite lookup_insert_eq|].
  split; [done|].
  assert (∀ bs,
    length (active_loans bid
      (mkStore (users db) bs
         (<[next_id (<[next_id (loans db) := mkLoan u1.1 bid now1 None]> (loans db))
            := mkLoan u2.1 bid now2 None]>
            (<[next_id (loans db) := mkLoan u1.1 bid now1 None]> (loans db)))))
    = S (S (length (active_loans bid db)))) as Hcount.
  { intros bs. unfold active_loans. cbn [loans].
    rewrite !select_length_insert_fresh by apply next_id_fresh. cbn.
    by rewrite !decide_True. }
  split; [apply Hcount|].
  intros HI1 HI1'. specialize (HI1 bid book Hb).
  specialize (HI1' bid (with_available_copies 0 (with_available_copies 0 book))).
  cbn [books] in HI1'. rewrite lookup_insert_eq in HI1'. specialize (HI1' eq_refl).
  unfold count in *. rewrite Hcount in HI1'. cbn in HI1'. lia.
Qed.

Lemma last_copy_race_witness :
  (books demo_db !! 2 = Some (last_copy_book 1)
   ∧ active_loans_of 2 2 demo_db = [] ∧ active_loans_of 3 2 demo_db = [])
  ∧ let '(db', t1, t2) :=
      interleave [true; true; false; false; true; true; true; true;
                  false; false; false; false]
                 (spawn (borrow 10 (mkBorrowIn 2) (2, john)))
                 (spawn (borrow 11 (mkBorrowIn 2) (3, jane))) demo_db in
    status 201 <$> outcome t1 = Some 201
    ∧ status 201 <$> outcome t2 = Some 201
    ∧ available_copies <$> books db' !! 2 = Some 0
    ∧ length (active_loans 2 db') = 2%nat.
Proof.
  split; [by vm_compute|].
  pose proof (last_copy_race 10 11 2 (2, john) (3, jane) demo_db (last_copy_book 1)
                eq_refl eq_refl eq_refl eq_refl) as H.
  cbn zeta in H.
  destruct (interleave _ _ _ demo_db) as [[db' t1] t2].
  destruct H as (l1 & l2 & _ & _ & H1 & H2 & _ & _ & _ & H3 & H4 & _).
  do 3 (split; [assumption|]). rewrite H4. reflexivity.
Defined.



(** [delete_book] in four cases: no such Title; a Title with an Active
    Loan; a Title with loan rows that are all Returned, where the flush of
    the delete is refused and the Title stays; a Title no loan row refers
    to, which is removed. *)
Lemma delete_book_outcomes bid admin db :
  (books db !! bid = None →
     run (delete_book bid admin) db
     = (db, inl (HTTPException 404 "book not found")))
  ∧ (is_Some (books db !! bid) → active_loans bid db ≠ [] →
     run (delete_book bid admin) db
     = (db, inl (HTTPException 409 "book has active loans")))
  ∧ (is_Some (books db !! bid) → active_loans bid db = [] →
     select (λ r, book_id r.2 = bid) (loans db) ≠ [] →
     run (delete_book bid admin) db = (db, inl (Unhandled "sqlalchemy.exc")))
  ∧ (is_Some (books db !! bid) →
     select (λ r, book_id r.2 = bid) (loans db) = [] →
     run (delete_book bid admin) db
     = (mkStore (users db) (delete bid (books db)) (loans db), inr tt)).
Proof.
  unfold run. rewrite exec_delete_book. split; [|split; [|split]].
  - by intros ->.
  - intros [b ->] Hact. destruct (decide _) as [Hc|]; [|done].
    unfold count in Hc. destruct (active_loans bid db); [done|simpl in Hc; lia].
  - intros [b ->] -> Hrows.
    destruct (decide (count [] = 0)) as [_|Hc]; [|by destruct Hc].
    destruct (decide _) as [Hnil|]; [by destruct Hrows|done].
  - intros [b ->] Hrows.
    assert (active_loans bid db = []) as ->.
    { unfold active_loans. apply select_nil. intros lid l Hl [Hb _].
      by apply (proj1 (select_nil _ _) Hrows lid l Hl). }
    destruct (decide (count [] = 0)) as [_|Hc]; [|by destruct Hc].
    by destruct (decide _).
Qed.

(** C6 on the scenario of the deletion guard: the Title is created (201),
    borrowed (201), its deletion is refused while the Loan is Active (409),
    the Loan is returned (200), and the second deletion, which is to
    succeed with 204, ends in an unhandled database error (500) and leaves
    the Title in the catalog. *)
Theorem deletion_guard_after_return :
  let '(db, codes) := demo_serve deletion_guard_scenario fresh_db in
  codes = [201; 201; 201; 409; 200; 500]
  ∧ is_Some (books db !! 1)
  ∧ run (list_books None None None) db
    = (db, inr [(1, mkBook "Software Foundations" "B. Pierce" "0-000-00000-X"
                      None 1 1 2)]).
Proof. vm_compute. split; [done|]. split; [by eexists|done]. Qed.

(** C7, as stated, fails: a token that is well formed, signed with the
    server's key and not expired is refused when no user row carries its
    subject. *)
Lemma resolve_unknown_subject :
  let token := Signed "s3cret" (mkClaims (Some "ghost") (Some 3600)) in
  run (get_current_user demo_settings 10 token) demo_db
  = (demo_db, inl credentials_exception)
  ∧ ¬ (token_malformed token
       ∨ signature_invalid (SECRET_KEY demo_settings) token
       ∨ token_expired 10 token).
Proof.
  split; [by vm_compute|].
  intros [[]|[Hsig|Hexp]]; [by apply Hsig|by vm_compute in Hexp].
Qed.

(** C7, amended.  [get_current_user] only reads.  It fails, with 401,
    exactly when the token is malformed, its signature is invalid, its
    expiry has passed, or no user row carries its subject; otherwise it
    yields the stored row of the user with the subject's handle.  No request
    and no restart removes or renames a user row, so a token issued by
    [login] is honored in every later state of the database until it
    expires. *)
Theorem get_current_user_outcomes settings hash_pw verify_pw email_valid :
  (∀ now token db,
     let out := run (get_current_user settings now token) db in
     out.1 = db
     ∧ (out.2 = inl credentials_exception ∨ ∃ user, out.2 = inr user)
     ∧ (out.2 = inl credentials_exception ↔
          token_malformed token
          ∨ signature_invalid (SECRET_KEY settings) token
          ∨ token_expired now token
          ∨ user_by_username (token_subject token) db = None)
     ∧ (∀ user, out.2 = inr user →
          token_subject token = Some (username user.2)
          ∧ users db !! user.1 = Some user.2))
  ∧ (∀ t0 name password db0 token now db,
     run (login settings verify_pw t0 name password) db0 = (db0, inr token) →
     later settings hash_pw verify_pw email_valid db0 db →
     ¬ token_expired now token →
     ∃ user, run (get_current_user settings now token) db = (db, inr user)
             ∧ username user.2 = name).
Proof.
  split.
  - intros now token db. cbn zeta. rewrite run_get_current_user.
    destruct (jwt_decode now token (SECRET_KEY settings)) as [payload|] eqn:Hd.
    + apply jwt_decode_Some in Hd as [-> Hexp]. cbn [token_subject].
      destruct (user_by_username (sub payload) db) as [user|] eqn:Hu; cbn.
      * split; [done|]. split; [right; by eexists|]. split.
        -- split; [done|]. intros [[]|[Hs|[He|Hn]]]; done.
        -- intros user' [= <-]. by apply user_by_username_Some.
      * split; [done|]. split; [by left|]. split; [|done].
        split; [intros _; by do 3 right|done].
    + cbn. split; [done|]. split; [by left|]. split; [|done].
      split; [intros _|done].
      apply jwt_decode_None in Hd as [Hm|[Hs|He]]; [by left|by right; left|].
      by right; right; left.
  - intros t0 name password db0 token now db.
    rewrite run_login.
    destruct (user_by_username (Some name) db0) as [issuer|] eqn:Hissuer; [|done].
    destruct (verify_pw _ _); [|done]. intros [= <-] Hlater Hexp.
    apply user_by_username_Some in Hissuer as Hname.
    destruct Hname as [[= Hname] _].
    assert (is_Some (user_by_username (Some name) db)) as [user Huser].
    { eapply user_by_username_mono; [by eapply later_users_mono|by eexists]. }
    exists user. rewrite run_get_current_user.
    unfold create_access_token, jwt_encode in *. cbn in Hexp |- *.
    rewrite decide_True by done.
    destruct (decide _) as [Hlt|_]; [by destruct Hexp|]. cbn [sub].
    rewrite <- Hname, Huser. split; [done|].
    apply user_by_username_Some in Huser as [[= ->] _]. done.
Qed.

Lemma get_current_user_outcomes_witness :
  run (login demo_settings demo_verify_pw 0 "john_doe" "securepass123") demo_db
  = (demo_db, inr (token_of "john_doe"))
  ∧ ∃ user,
      run (get_current_user demo_settings 3600 (token_of "john_doe"))
          (run (app demo_settings demo_hash_pw demo_verify_pw demo_email_valid
                    50 (POST_loans (Some (token_of "jane_roe")) (mkBorrowIn 2)))
               demo_db).1
      = ((run (app demo_settings demo_hash_pw demo_verify_pw demo_email_valid
                   50 (POST_loans (Some (token_of "jane_roe")) (mkBorrowIn 2)))
              demo_db).1, inr user)
      ∧ username user.2 = "john_doe".
Proof.
  assert (run (login demo_settings demo_verify_pw 0 "john_doe" "securepass123")
              demo_db = (demo_db, inr (token_of "john_doe"))) as Hlogin
    by (vm_compute; reflexivity).
  split; [exact Hlogin|].
  apply (proj2 (get_current_user_outcomes demo_settings demo_hash_pw
                  demo_verify_pw demo_email_valid)
           0 "john_doe" "securepass123" demo_db).
  - exact Hlogin.
  - apply later_request, later_now.
  - cbn. lia.
Defined.

(** What [list_books] returns: the rows of [books] that pass the three
    filters, each once, in ascending order of [id]. *)
Lemma list_books_result cat available q db :
  ∃ bs, run (list_books cat available q) db = (db, inr bs)
    ∧ StronglySorted key_le bs
    ∧ NoDup bs.*1
    ∧ ∀ bid b, (bid, b) ∈ bs ↔
        books db !! bid = Some b
        ∧ category_filter cat (bid, b)
        ∧ available_filter available (bid, b)
        ∧ q_filter q (bid, b).
Proof.
  eexists. split; [reflexivity|]. split; [apply select_sorted|].
  split; [apply select_NoDup_keys|].
  intros bid b. rewrite elem_of_select. cbn. tauto.
Qed.

(** A new Title gets an [id] above those in the catalog, so ascending [id]
    is creation order. *)
Lemma new_book_id_above now payload admin db db' book bid b :
  run (create_book now payload admin) db = (db', inr book) →
  books db !! bid = Some b → bid < book.1.
Proof.
  unfold run. rewrite exec_create_book. destruct (first _); [done|].
  cbn zeta. intros [= <- <-] Hb. cbn.
  pose proof (max_key_bound (books db) bid (mk_is_Some _ _ Hb)).
  unfold next_id. lia.
Qed.

(** On a [q] without [%] and [_] the text filter is the case-insensitive
    substring test on the title or the author. *)
Lemma q_filter_contains q r :
  q ≠ "" → wildcard_free (String.list_ascii_of_string q) →
  q_filter (Some q) r ↔
  contains_ci (title r.2) q = true ∨ contains_ci (author r.2) q = true.
Proof.
  intros Hne Hq. unfold q_filter, truthy.
  destruct (decide (q = "")); [done|]. cbn zeta.
  by rewrite !ilike_contains.
Qed.

(** C8 at [q = "%"]: both Titles of the demo catalog are returned, though
    neither a title nor an author contains a percent sign. *)
Theorem list_books_wildcard :
  run (list_books None None (Some "%")) demo_db
  = (demo_db, inr [(1, python_book 4); (2, last_copy_book 1)])
  ∧ contains_ci (title (python_book 4)) "%" = false
  ∧ contains_ci (author (python_book 4)) "%" = false
  ∧ contains_ci (title (last_copy_book 1)) "%" = false
  ∧ contains_ci (author (last_copy_book 1)) "%" = false.
Proof. by vm_compute. Qed.

(** C9.  A user record made by signup has [is_admin = False], and signup
    changes nothing else.  The bootstrap block inserts its account, with
    [is_admin = True] and the configured default handle, only when no user
    has that handle, and otherwise leaves the database alone.  So in every
    state the database reaches, an admin is a copy of the bootstrap account
    and there is at most one. *)
Theorem only_bootstrap_makes_admins settings hash_pw verify_pw email_valid :
  (∀ now data db db' u,
     run (signup hash_pw now data) db = (db', inr u) →
     is_admin u.2 = false ∧ users db !! u.1 = None
     ∧ db' = mkStore (<[u.1 := u.2]> (users db)) (books db) (loans db))
  ∧ (∀ now db,
     let db' := (run (bootstrap_admin settings hash_pw now) db).1 in
     db' = db
     ∨ ((∀ uid u, users db !! uid = Some u →
           username u ≠ ADMIN_DEFAULT_USERNAME settings)
        ∧ users db !! next_id (users db) = None
        ∧ db' = mkStore (<[next_id (users db) := admin_account settings hash_pw now]>
                           (users db)) (books db) (loans db)
        ∧ is_admin (admin_account settings hash_pw now) = true
        ∧ username (admin_account settings hash_pw now)
          = ADMIN_DEFAULT_USERNAME settings))
  ∧ (∀ db, reachable settings hash_pw verify_pw email_valid db →
     ∀ uid u, users db !! uid = Some u → is_admin u = true →
       (∃ t, u = admin_account settings hash_pw t)
       ∧ ∀ uid' u', users db !! uid' = Some u' → is_admin u' = true → uid' = uid).
Proof.
  split; [|split].
  - intros now data db db' u. unfold run. rewrite exec_signup.
    destruct (first _); [done|]. cbn zeta. intros [= <- <-]. cbn.
    split; [done|]. split; [apply next_id_fresh|done].
  - intros now db. unfold run. rewrite exec_bootstrap_admin. cbn zeta.
    unfold user_by_username.
    destruct (first _) eqn:Hfirst; [by left|].
    destruct (decide _); [|by left]. right. cbn [fst].
    pose proof (proj1 (first_select_None _ _) Hfirst) as Hnone.
    split; [exact Hnone|]. split; [apply next_id_fresh|done].
  - intros db Hreach uid u Hu Hadm.
    destruct (reachable_accounts _ _ _ _ _ Hreach) as [Hseeded Huniq].
    split; [by apply (Hseeded uid)|].
    intros uid' u' Hu' Hadm'. apply (Huniq uid' uid u' u Hu' Hu).
    destruct (Hseeded uid u Hu Hadm) as [t ->].
    by destruct (Hseeded uid' u' Hu' Hadm') as [t' ->].
Qed.

Lemma only_bootstrap_makes_admins_witness :
  match run (signup demo_hash_pw 7
               (mkSignupIn "eve" "eve@example.com" "longpassword" None)) demo_db
  with
  | (_, inr u) => is_admin u.2 = false
  | (_, inl _) => False
  end.
Proof.
  destruct (run _ demo_db) as [db' [e|u]] eqn:E.
  - vm_compute in E. discriminate.
  - eapply (proj1 (only_bootstrap_makes_admins demo_settings demo_hash_pw
                     demo_verify_pw demo_email_valid)).
    exact E.
Defined.



(** In this model a Title that [delete_book] removes has no loan row at all:
    the flush refuses the delete as soon as one refers to it. *)
Lemma delete_book_success_no_history bid admin db db' :
  run (delete_book bid admin) db = (db', inr tt) →
  ∀ lid l, loans db !! lid = Some l → book_id l ≠ bid.
Proof.
  unfold run. rewrite exec_delete_book.
  destruct (books db !! bid) as [b|]; [|done].
  destruct (decide _); [|done].
  destruct (decide _) as [Hrows|]; [|done]. intros _ lid l Hl.
  by apply (proj1 (select_nil _ _) Hrows lid l Hl).
Qed.

(** * Further properties of the application *)

(** ** Routes *)

Lemma run_respond {A B} (p : prog A) (f : A → B) db :
  run (p ≫= λ a, mret (f a)) db = respond f (run p db).
Proof.
  unfold run, respond. rewrite exec_bind.
  destruct (exec p [] db) as [[db' pend'] [e|a]]; done.
Qed.

Lemma run_after_read_only {A B} (p : prog A) (f : A → prog B) db :
  read_only p →
  run (p ≫= f) db
  = match (run p db).2 with
    | inl e => (db, inl e)
    | inr a => run (f a) db
    end.
Proof.
  intros Hp. unfold run at 1 2. rewrite exec_bind.
  destruct (Hp [] db) as [[e|a] ->]; done.
Qed.

Section Routes.

Variable settings : Settings.
Variable hash_pw : string → string.
Variable verify_pw : string → string → bool.
Variable email_valid : string → bool.

(** What the caller of a protected route resolves to. *)
Lemma run_current_user now authorization db :
  run (current_user settings now authorization) db
  = match authorization with
    | None => (db, inl (HTTPException 401 "Not authenticated"))
    | Some token => run (get_current_user settings now token) db
    end.
Proof. by destruct authorization. Qed.

Lemma current_user_fst now authorization db :
  (run (current_user settings now authorization) db).1 = db.
Proof. apply read_only_run, read_only_current_user. Qed.

Lemma current_user_error now authorization db e :
  (run (current_user settings now authorization) db).2 = inl e →
  ∃ detail, e = HTTPException 401 detail.
Proof.
  rewrite run_current_user. destruct authorization as [token|].
  - rewrite run_get_current_user.
    destruct (jwt_decode _ _ _); [destruct (user_by_username _ _)|];
      intros [= <-]; by eexists.
  - intros [= <-]. by eexists.
Qed.

Lemma current_user_row now authorization db user :
  (run (current_user settings now authorization) db).2 = inr user →
  users db !! user.1 = Some user.2.
Proof.
  rewrite run_current_user. destruct authorization as [token|]; [|done].
  rewrite run_get_current_user.
  destruct (jwt_decode _ _ _); [|done].
  destruct (user_by_username _ _) eqn:Hu; [|done]. intros [= <-].
  by apply user_by_username_Some in Hu as [_ Hu].
Qed.

Lemma run_require_admin (user : row User) db :
  run (require_admin user) db
  = if is_admin user.2 then (db, inr user)
    else (db, inl (HTTPException 403 "Admin required")).
Proof. unfold run, require_admin. by destruct (is_admin user.2). Qed.

(** Every route in terms of its handler: the body is validated, the caller
    is resolved and, where the route asks for it, checked to be an admin,
    and the handler's outcome is the response. *)
Lemma run_app now req db :
  run (app settings hash_pw verify_pw email_valid now req) db =
  if body_valid email_valid req then
    match req with
    | POST_auth_signup data => respond UserOut (run (signup hash_pw now data) db)
    | POST_auth_login name password =>
        respond TokenOut (run (login settings verify_pw now name password) db)
    | GET_books cat available q =>
        respond BooksOut (run (list_books cat available q) db)
    | GET_users_me a | GET_users_me_loans a | POST_books a _
    | DELETE_books a _ | POST_loans a _ | POST_loans_return a _ =>
        match (run (current_user settings now a) db).2 with
        | inl e => (db, inl e)
        | inr user =>
            if admin_only req && negb (is_admin user.2) then
              (db, inl (HTTPException 403 "Admin required"))
            else
              match req with
              | GET_users_me _ => (db, inr (UserOut user))
              | GET_users_me_loans _ => respond LoansOut (run (my_loans user) db)
              | POST_books _ payload =>
                  respond BookOut (run (create_book now payload user) db)
              | DELETE_books _ bid =>
                  respond (λ _, NoContent) (run (delete_book bid user) db)
              | POST_loans _ data =>
                  respond LoanOut (run (borrow now data user) db)
              | POST_loans_return _ lid =>
                  respond LoanOut (run (return_book now lid user) db)
              | _ => (db, inl validation_error)
              end
        end
    end
  else (db, inl validation_error).
Proof.
  destruct req; unfold app, body_valid, admin_only; cbn [andb].
  - destruct (SignupIn_valid _ data); [|done]. apply run_respond.
  - apply run_respond.
  - rewrite run_after_read_only by apply read_only_current_user.
    by destruct (run (current_user _ _ _) db).2.
  - rewrite run_after_read_only by apply read_only_current_user.
    destruct (run (current_user _ _ _) db).2 as [e|user]; [done|].
    apply run_respond.
  - destruct (BookCreate_valid payload); [|done].
    rewrite run_after_read_only by apply read_only_current_user.
    destruct (run (current_user _ _ _) db).2 as [e|user]; [done|].
    rewrite run_after_read_only by apply read_only_require_admin.
    rewrite run_require_admin.
    destruct (is_admin user.2); [|done]. apply run_respond.
  - apply run_respond.
  - rewrite run_after_read_only by apply read_only_current_user.
    destruct (run (current_user _ _ _) db).2 as [e|user]; [done|].
    rewrite run_after_read_only by apply read_only_require_admin.
    rewrite run_require_admin.
    destruct (is_admin user.2); [|done].
    apply (run_respond _ (λ _, NoContent)).
  - rewrite run_after_read_only by apply read_only_current_user.
    destruct (run (current_user _ _ _) db).2 as [e|user]; [done|].
    apply run_respond.
  - rewrite run_after_read_only by apply read_only_current_user.
    destruct (run (current_user _ _ _) db).2 as [e|user]; [done|].
    apply run_respond.
Qed.

End Routes.

(** ** Errors and the database *)

Lemma all_or_nothing_read_only {A} (p : prog A) : read_only p → all_or_nothing p.
Proof. intros Hp db e _. by apply read_only_run. Qed.

Lemma all_or_nothing_signup hash_pw now data :
  all_or_nothing (signup hash_pw now data).
Proof.
  intros db e. unfold run. rewrite exec_signup. by destruct (first _).
Qed.

Lemma all_or_nothing_create_book now payload admin :
  all_or_nothing (create_book now payload admin).
Proof.
  intros db e. unfold run. rewrite exec_create_book. by destruct (first _).
Qed.

Lemma all_or_nothing_delete_book bid admin :
  all_or_nothing (delete_book bid admin).
Proof.
  intros db e. unfold run. rewrite exec_delete_book.
  destruct (books db !! bid); [|done].
  destruct (decide _); [|done]. by destruct (decide _).
Qed.

Lemma all_or_nothing_borrow now data user :
  all_or_nothing (borrow now data user).
Proof.
  intros db e. unfold run. rewrite exec_borrow. cbn zeta.
  destruct (books db !! _); [|done]. destruct (decide _); [done|].
  by destruct (first _).
Qed.

Lemma all_or_nothing_return_book now lid user :
  all_or_nothing (return_book now lid user).
Proof.
  intros db e. unfold run. rewrite exec_return_book.
  destruct (loans db !! lid) as [loan|]; [|done].
  destruct (_ && _); [done|]. destruct (returned_at loan); [done|].
  by destruct (books db !! _).
Qed.

Lemma respond_failed {A B} (f : A → B) (p : prog A) db e :
  all_or_nothing p → (respond f (run p db)).2 = inl e → (respond f (run p db)).1 = db.
Proof.
  intros Hp. unfold respond. cbn.
  destruct (run p db).2 as [e'|a] eqn:Hr; [|done]. intros _. by apply (Hp db e').
Qed.

(** X1.  A request that is answered with an error, whatever the route and
    whatever the error (a status raised by the handler, a dependency or the
    validation, or an exception nobody catches), leaves the database exactly
    as it was. *)
Theorem failed_request_changes_nothing
    settings hash_pw verify_pw email_valid now req db e :
  (run (app settings hash_pw verify_pw email_valid now req) db).2 = inl e →
  (run (app settings hash_pw verify_pw email_valid now req) db).1 = db.
Proof.
  rewrite run_app. destruct (body_valid email_valid req); [|done].
  destruct req; cbn [admin_only andb];
    try (destruct (run (current_user _ _ _) db).2 as [e'|user]; [done|]);
    try (destruct (is_admin user.2); cbn [negb]; [|done]).
  - apply respond_failed, all_or_nothing_signup.
  - apply respond_failed, all_or_nothing_read_only, read_only_login.
  - done.
  - apply respond_failed, all_or_nothing_read_only, read_only_my_loans.
  - apply respond_failed, all_or_nothing_create_book.
  - apply respond_failed, all_or_nothing_read_only, read_only_list_books.
  - apply respond_failed, all_or_nothing_delete_book.
  - apply respond_failed, all_or_nothing_borrow.
  - apply respond_failed, all_or_nothing_return_book.
Qed.

Lemma failed_request_changes_nothing_witness :
  (run (app demo_settings demo_hash_pw demo_verify_pw demo_email_valid
            10 (POST_loans (Some (token_of "john_doe")) (mkBorrowIn 1))) demo_db).2
  = inl (HTTPException 409 "already borrowed")
  ∧ (run (app demo_settings demo_hash_pw demo_verify_pw demo_email_valid
              10 (POST_loans (Some (token_of "john_doe")) (mkBorrowIn 1))) demo_db).1
    = demo_db.
Proof.
  assert ((run (app demo_settings demo_hash_pw demo_verify_pw demo_email_valid
            10 (POST_loans (Some (token_of "john_doe")) (mkBorrowIn 1))) demo_db).2
          = inl (HTTPException 409 "already borrowed")) as Herr
    by (vm_compute; reflexivity).
  split; [exact Herr|]. exact (failed_request_changes_nothing _ _ _ _ _ _ _ _ Herr).
Defined.

(** ** Access control *)

(** X2.  On every route that takes a bearer token, a request with a valid
    body whose token is missing or does not resolve (malformed, wrongly
    signed, expired, or for an unknown user) is answered with that 401
    and never reaches the handler: the database is unchanged. *)
Theorem unresolved_caller_refused
    settings hash_pw verify_pw email_valid now req authorization db e :
  authorization_of req = Some authorization →
  body_valid email_valid req = true →
  (run (current_user settings now authorization) db).2 = inl e →
  run (app settings hash_pw verify_pw email_valid now req) db = (db, inl e)
  ∧ ∃ detail, e = HTTPException 401 detail.
Proof.
  intros Hauth Hvalid Hfail. split; [|by eapply current_user_error].
  rewrite run_app, Hvalid.
  destruct req; cbn in Hauth; try done; injection Hauth as ->; by rewrite Hfail.
Qed.

Lemma unresolved_caller_refused_witness :
  let expired := Signed "s3cret" (mkClaims (Some "john_doe") (Some 5)) in
  token_expired 10 expired
  ∧ run (app demo_settings demo_hash_pw demo_verify_pw demo_email_valid
             10 (POST_loans_return (Some expired) 1)) demo_db
    = (demo_db, inl credentials_exception).
Proof.
  split; [cbn; lia|].
  apply (unresolved_caller_refused demo_settings demo_hash_pw demo_verify_pw
           demo_email_valid 10 (POST_loans_return _ 1) _ demo_db
           credentials_exception eq_refl eq_refl).
  vm_compute. reflexivity.
Defined.

(** X3.  The two catalog-changing routes, create and delete, answer a
    resolved caller who is not an admin with 403 "Admin required" and leave
    the database unchanged, whatever the (valid) body or the book id. *)
Theorem non_admin_refused
    settings hash_pw verify_pw email_valid now req authorization db user :
  admin_only req = true →
  authorization_of req = Some authorization →
  body_valid email_valid req = true →
  (run (current_user settings now authorization) db).2 = inr user →
  is_admin user.2 = false →
  run (app settings hash_pw verify_pw email_valid now req) db
  = (db, inl (HTTPException 403 "Admin required")).
Proof.
  intros Hadm Hauth Hvalid Huser Hno. rewrite run_app, Hvalid.
  destruct req; cbn in Hadm, Hauth; try done; injection Hauth as ->;
    rewrite Huser; cbn [admin_only andb]; by rewrite Hno.
Qed.

Lemma non_admin_refused_witness :
  (run (current_user demo_settings 10 (Some (token_of "john_doe"))) demo_db).2
  = inr (2, john)
  ∧ run (app demo_settings demo_hash_pw demo_verify_pw demo_email_valid
             10 (DELETE_books (Some (token_of "john_doe")) 2)) demo_db
    = (demo_db, inl (HTTPException 403 "Admin required")).
Proof.
  assert ((run (current_user demo_settings 10 (Some (token_of "john_doe")))
               demo_db).2 = inr (2, john)) as Huser by (vm_compute; reflexivity).
  split; [exact Huser|].
  exact (non_admin_refused demo_settings demo_hash_pw demo_verify_pw
           demo_email_valid 10 (DELETE_books _ 2) _ demo_db (2, john)
           eq_refl eq_refl eq_refl Huser eq_refl).
Defined.

(** ** Tokens and accounts *)

Lemma jwt_decode_issued settings t0 name now :
  now ≤ t0 + 60 * ACCESS_TOKEN_EXPIRE_MINUTES settings →
  jwt_decode now (create_access_token settings t0 name) (SECRET_KEY settings)
  = Some (mkClaims (Some name)
            (Some (t0 + 60 * ACCESS_TOKEN_EXPIRE_MINUTES settings))).
Proof.
  intros Hnow. unfold create_access_token, jwt_encode, jwt_decode. cbn [exp].
  rewrite decide_True by done. by rewrite decide_False by lia.
Qed.


(** X5.  [signup] answers 400 exactly when some user already has the
    username or the e-mail address, and then changes nothing; otherwise it
    inserts one row under a new id, with the password stored as its hash
    and [is_admin = False], and returns that row. *)
Theorem signup_outcomes hash_pw now data db :
  let taken := ∃ uid u, users db !! uid = Some u
                 ∧ (username u = signup_username data
                    ∨ email u = signup_email data) in
  let user := mkUser (signup_username data) (signup_email data)
                     (signup_full_name data)
                     (hash_pw (signup_password data)) false now in
  (taken →
     run (signup hash_pw now data) db
     = (db, inl (HTTPException 400 "username or email already exists")))
  ∧ (¬ taken →
     ∃ uid, users db !! uid = None
       ∧ run (signup hash_pw now data) db
         = (mkStore (<[uid := user]> (users db)) (books db) (loans db),
            inr (uid, user))).
Proof.
  cbn zeta. unfold run. rewrite exec_signup.
  destruct (first _) as [r|] eqn:Hfirst; split.
  - done.
  - intros Hfree. apply first_select_Some in Hfirst as [Hp Hr].
    destruct Hfree. by exists r.1, r.2.
  - intros (uid & u & Hu & Hp).
    by destruct (proj1 (first_select_None _ _) Hfirst uid u Hu).
  - intros _. exists (next_id (users db)). split; [apply next_id_fresh|done].
Qed.

Lemma signup_outcomes_witness :
  (∃ uid u, users demo_db !! uid = Some u
     ∧ (username u = "johnny" ∨ email u = "john@example.com"))
  ∧ run (signup demo_hash_pw 9
           (mkSignupIn "johnny" "john@example.com" "anotherpass" None)) demo_db
    = (demo_db, inl (HTTPException 400 "username or email already exists")).
Proof.
  assert (∃ uid u, users demo_db !! uid = Some u
            ∧ (username u = "johnny" ∨ email u = "john@example.com")) as Htaken
    by (exists 2, john; split; [reflexivity|by right]).
  split; [exact Htaken|].
  exact (proj1 (signup_outcomes demo_hash_pw 9
                  (mkSignupIn "johnny" "john@example.com" "anotherpass" None)
                  demo_db) Htaken).
Defined.

Lemma bootstrap_admin_fst settings hash_pw now db :
  (run (bootstrap_admin settings hash_pw now) db).1
  = match user_by_username (Some (ADMIN_DEFAULT_USERNAME settings)) db with
    | Some _ => db
    | None =>
        if decide (select (λ r, username r.2 = ADMIN_DEFAULT_USERNAME settings
                                ∨ email r.2
                                  = ADMIN_DEFAULT_USERNAME settings +:+ "@local")
                          (users db) = [])
        then mkStore (<[next_id (users db) := admin_account settings hash_pw now]>
                        (users db)) (books db) (loans db)
        else db
    end.
Proof.
  unfold run. rewrite exec_bootstrap_admin. cbn zeta.
  destruct (user_by_username _ db); [done|]. by destruct (decide _).
Qed.

(** X6.  The bootstrap block is idempotent: run again, at any later clock
    reading, on the database it has left, it changes nothing. *)
Theorem bootstrap_admin_idempotent settings hash_pw now1 now2 db :
  let db1 := (run (bootstrap_admin settings hash_pw now1) db).1 in
  (run (bootstrap_admin settings hash_pw now2) db1).1 = db1.
Proof.
  cbn zeta. rewrite (bootstrap_admin_fst _ _ now1 db).
  destruct (user_by_username _ db) as [r|] eqn:Hfound.
  - by rewrite bootstrap_admin_fst, Hfound.
  - destruct (decide _) as [Hnil|Hclash].
    + rewrite bootstrap_admin_fst.
      destruct (user_by_username _ (mkStore _ _ _)) as [r|] eqn:Hagain; [done|].
      cbn in Hagain.
      destruct (proj1 (first_select_None _ _) Hagain (next_id (users db))
                  (admin_account settings hash_pw now1)).
      * cbn [users]. apply lookup_insert_eq.
      * done.
    + rewrite bootstrap_admin_fst, Hfound. by rewrite decide_False.
Qed.

Section Accounts_later.

Variable settings : Settings.
Variable hash_pw : string → string.
Variable verify_pw : string → string → bool.
Variable email_valid : string → bool.

(** One more request or restart: the users table is as it was, or has one
    more row, under a new id, whose username and e-mail address no earlier
    row has. *)
Lemma signup_users_step now data db :
  let db' := (run (signup hash_pw now data) db).1 in
  users db' = users db
  ∨ ∃ u, users db' = <[next_id (users db) := u]> (users db)
      ∧ ∀ j v, users db !! j = Some v →
          username v ≠ username u ∧ email v ≠ email u.
Proof.
  cbn zeta. unfold run. rewrite exec_signup.
  destruct (first _) eqn:Hfirst; [by left|]. right. eexists. split; [done|].
  intros j v Hv. pose proof (proj1 (first_select_None _ _) Hfirst j v Hv) as Hn.
  cbn in Hn |- *. split; intros Heq; apply Hn; [by left|by right].
Qed.

Lemma bootstrap_admin_users_step now db :
  let db' := (run (bootstrap_admin settings hash_pw now) db).1 in
  users db' = users db
  ∨ ∃ u, users db' = <[next_id (users db) := u]> (users db)
      ∧ ∀ j v, users db !! j = Some v →
          username v ≠ username u ∧ email v ≠ email u.
Proof.
  cbn zeta. rewrite bootstrap_admin_fst.
  destruct (user_by_username _ db); [by left|].
  destruct (decide _) as [Hnil|]; [|by left]. right. eexists. split; [done|].
  intros j v Hv. pose proof (proj1 (select_nil _ _) Hnil j v Hv) as Hn.
  cbn in Hn |- *. split; intros Heq; apply Hn; [by left|by right].
Qed.

Lemma later_users_step db db' :
  later settings hash_pw verify_pw email_valid db db' →
  ∀ i u, users db' !! i = Some u →
    users db !! i = Some u
    ∨ ∀ j v, users db !! j = Some v →
        username v ≠ username u ∧ email v ≠ email u.
Proof.
  induction 1 as [|now db' Hl IH|now req db' Hl IH]; intros i u Hu; [by left| |].
  - pose proof (later_users_mono _ _ _ _ _ _ Hl) as Hsub.
    destruct (bootstrap_admin_users_step now db') as [Hsame|(w & Hins & Hnew)].
    + rewrite Hsame in Hu. by apply IH.
    + rewrite Hins in Hu.
      destruct (decide (next_id (users db') = i)) as [<-|Hne].
      * rewrite lookup_insert_eq in Hu. injection Hu as <-. right.
        intros j v Hv. apply (Hnew j). by eapply lookup_weaken.
      * rewrite lookup_insert_ne in Hu by done. by apply IH.
  - pose proof (later_users_mono _ _ _ _ _ _ Hl) as Hsub.
    destruct (transition_users hash_pw now db' _
      (app_transition settings hash_pw verify_pw email_valid now req db'))
      as [Hsame|[data Hsignup]].
    + rewrite Hsame in Hu. by apply IH.
    + rewrite Hsignup in Hu.
      destruct (signup_users_step now data db') as [Hsame|(w & Hins & Hnew)].
      * rewrite Hsame in Hu. by apply IH.
      * rewrite Hins in Hu.
        destruct (decide (next_id (users db') = i)) as [<-|Hne].
        -- rewrite lookup_insert_eq in Hu. injection Hu as <-. right.
           intros j v Hv. apply (Hnew j). by eapply lookup_weaken.
        -- rewrite lookup_insert_ne in Hu by done. by apply IH.
Qed.

(** X7.  Round trip through the account routes.  After a successful
    [signup], in every later state of the database, [login] with the same
    username and password (the hash function accepting the password it
    hashed) issues a token for that username, and until the token expires
    [get_current_user] resolves it to the very row that [signup] returned. *)
Theorem signup_then_login t0 data db db1 u db2 t1 t2 :
  verify_pw (signup_password data) (hash_pw (signup_password data)) = true →
  run (signup hash_pw t0 data) db = (db1, inr u) →
  later settings hash_pw verify_pw email_valid db1 db2 →
  t2 ≤ t1 + 60 * ACCESS_TOKEN_EXPIRE_MINUTES settings →
  let token := create_access_token settings t1 (signup_username data) in
  run (login settings verify_pw t1 (signup_username data) (signup_password data))
      db2 = (db2, inr token)
  ∧ run (get_current_user settings t2 token) db2 = (db2, inr u).
Proof.
  intros Hpw Hsignup Hlater Ht2 token.
  revert Hsignup. unfold run at 1. rewrite exec_signup.
  destruct (first _) eqn:Hfirst; [done|]. cbn zeta. intros [= <- <-].
  pose proof (proj1 (first_select_None _ _) Hfirst) as Hfree. clear Hfirst.
  set (user := mkUser (signup_username data) (signup_email data)
                 (signup_full_name data) (hash_pw (signup_password data))
                 false t0) in *.
  set (uid := next_id (users db)) in *.
  assert (user_by_username (Some (signup_username data)) db2 = Some (uid, user))
    as Hfound.
  { cbn. destruct (first _) as [r|] eqn:Hr.
    - apply first_select_Some in Hr as [Hname Hrow]. cbn in Hname.
      destruct (later_users_step _ _ Hlater r.1 r.2 Hrow) as [Hold|Hnew].
      + cbn [users] in Hold.
        destruct (decide (uid = r.1)) as [Heq|Hne].
        * rewrite <- Heq, lookup_insert_eq in Hold. injection Hold as Hold.
          destruct r as [i v]. cbn in *. by subst.
        * rewrite lookup_insert_ne in Hold by done.
          destruct (Hfree r.1 r.2 Hold). by left.
      + destruct (Hnew uid user) as [Hn _]; [apply lookup_insert_eq|].
        by destruct Hn.
    - destruct (proj1 (first_select_None _ _) Hr uid user); [|done].
      eapply lookup_weaken; [|by eapply later_users_mono].
      apply lookup_insert_eq. }
  split.
  - rewrite run_login, Hfound. cbn [snd password_hash user]. by rewrite Hpw.
  - rewrite run_get_current_user. subst token.
    rewrite jwt_decode_issued by done. cbn [sub]. by rewrite Hfound.
Qed.

End Accounts_later.

Lemma signup_then_login_witness :
  let data := mkSignupIn "eve" "eve@example.com" "longpassword" None in
  let db1 := (run (signup demo_hash_pw 7 data) demo_db).1 in
  let db2 := (run (app demo_settings demo_hash_pw demo_verify_pw demo_email_valid
                       8 (POST_loans (Some (token_of "jane_roe")) (mkBorrowIn 2)))
                  db1).1 in
  let token := create_access_token demo_settings 9 "eve" in
  run (login demo_settings demo_verify_pw 9 "eve" "longpassword") db2
  = (db2, inr token)
  ∧ run (get_current_user demo_settings 3609 token) db2
    = (db2, inr (4, mkUser "eve" "eve@example.com" None
                      (demo_hash_pw "longpassword") false 7)).
Proof.
  intros data db1 db2 token.
  apply (signup_then_login demo_settings demo_hash_pw demo_verify_pw
           demo_email_valid 7 data demo_db db1 _ db2 9 3609).
  - vm_compute. reflexivity.
  - vm_compute. reflexivity.
  - apply later_request, later_now.
  - vm_compute. discriminate.
Defined.

(** ** Unique columns and references *)

Section Unique.
Context {A B : Type} (column : A → B).
Implicit Types m : gmap Z A.

Lemma unique_on_insert_fresh m k y :
  m !! k = None → (∀ i x, m !! i = Some x → column x ≠ column y) →
  unique_on column m → unique_on column (<[k := y]> m).
Proof.
  intros Hk Hnew Hu i j x1 x2.
  destruct (decide (k = i)) as [<-|Hi]; destruct (decide (k = j)) as [<-|Hj];
    rewrite ?lookup_insert_eq, ?lookup_insert_ne by done.
  - done.
  - intros [= <-] H2 Heq. by destruct (Hnew j x2 H2).
  - intros H1 [= <-] Heq. by destruct (Hnew i x1 H1).
  - apply Hu.
Qed.

Lemma unique_on_update m k x y :
  m !! k = Some x → column y = column x →
  unique_on column m → unique_on column (<[k := y]> m).
Proof.
  intros Hk Hsame Hu i j x1 x2.
  destruct (decide (k = i)) as [<-|Hi]; destruct (decide (k = j)) as [<-|Hj];
    rewrite ?lookup_insert_eq, ?lookup_insert_ne by done.
  - done.
  - intros [= <-] H2 Heq. rewrite Hsame in Heq. by apply (Hu k j x x2).
  - intros H1 [= <-] Heq. rewrite Hsame in Heq. by apply (Hu i k x1 x).
  - apply Hu.
Qed.

Lemma unique_on_delete m k : unique_on column m → unique_on column (delete k m).
Proof.
  intros Hu i j x1 x2 [_ H1]%lookup_delete_Some [_ H2]%lookup_delete_Some.
  by apply Hu.
Qed.

End Unique.

Lemma signup_books hash_pw now data db :
  books (run (signup hash_pw now data) db).1 = books db.
Proof. unfold run. rewrite exec_signup. by destruct (first _). Qed.

Lemma bootstrap_admin_books settings hash_pw now db :
  books (run (bootstrap_admin settings hash_pw now) db).1 = books db.
Proof.
  rewrite bootstrap_admin_fst. destruct (user_by_username _ db); [done|].
  by destruct (decide _).
Qed.

Lemma transition_unique_isbn hash_pw now db db' :
  transition hash_pw now db db' →
  unique_on isbn (books db) → unique_on isbn (books db').
Proof.
  intros [|data|payload admin Hv|bid admin|data user|lid user] Hu.
  - done.
  - by rewrite signup_books.
  - unfold run. rewrite exec_create_book.
    destruct (first _) eqn:Hfirst; [done|]. cbn.
    apply unique_on_insert_fresh; [apply next_id_fresh| |done].
    intros i x Hx. apply (proj1 (first_select_None _ _) Hfirst i x Hx).
  - unfold run. rewrite exec_delete_book.
    destruct (books db !! bid); [|done]. destruct (decide _); [|done].
    destruct (decide _); [|done]. cbn. by apply unique_on_delete.
  - unfold run. rewrite exec_borrow. cbn zeta.
    destruct (books db !! _) as [book|] eqn:Hb; [|done].
    destruct (decide _); [done|]. destruct (first _); [done|]. cbn.
    by eapply unique_on_update.
  - unfold run. rewrite exec_return_book.
    destruct (loans db !! lid) as [loan|]; [|done].
    destruct (_ && _); [done|]. destruct (returned_at loan); [done|].
    destruct (books db !! _) as [book|] eqn:Hb; [|done]. cbn.
    by eapply unique_on_update.
Qed.

Lemma users_step_unique db us :
  (us = users db
   ∨ ∃ u, us = <[next_id (users db) := u]> (users db)
       ∧ ∀ j v, users db !! j = Some v →
           username v ≠ username u ∧ email v ≠ email u) →
  unique_on username (users db) ∧ unique_on email (users db) →
  unique_on username us ∧ unique_on email us.
Proof.
  intros [->|(u & -> & Hnew)] [Hn He]; [done|].
  split; (apply unique_on_insert_fresh; [apply next_id_fresh| |done]);
    intros i x Hx; by destruct (Hnew i x Hx).
Qed.

(** X8.  The unique columns stay unique: in every state the database
    reaches, no two users share a username, no two users share an e-mail
    address, and no two books share an ISBN. *)
Theorem unique_columns_kept settings hash_pw verify_pw email_valid db :
  reachable settings hash_pw verify_pw email_valid db →
  unique_on username (users db)
  ∧ unique_on email (users db)
  ∧ unique_on isbn (books db).
Proof.
  induction 1 as [|now db _ (Hn & He & Hi)|now req db _ (Hn & He & Hi)].
  - repeat split; intros i j x y Hx; cbn in Hx; by rewrite lookup_empty in Hx.
  - destruct (users_step_unique db _
                (bootstrap_admin_users_step settings hash_pw now db))
      as [Hn' He']; [done|].
    by rewrite bootstrap_admin_books.
  - pose proof (app_transition settings hash_pw verify_pw email_valid now req db)
      as Ht.
    split; [|split]; [| |by eapply transition_unique_isbn].
    + destruct (transition_users hash_pw now db _ Ht) as [->|[data ->]]; [done|].
      by destruct (users_step_unique db _ (signup_users_step hash_pw now data db)).
    + destruct (transition_users hash_pw now db _ Ht) as [->|[data ->]]; [done|].
      by destruct (users_step_unique db _ (signup_users_step hash_pw now data db)).
Qed.

Lemma unique_columns_kept_witness :
  let db := (run (app demo_settings demo_hash_pw demo_verify_pw demo_email_valid
                      2 (POST_books (Some (token_of "admin")) one_copy))
                 fresh_db).1 in
  reachable demo_settings demo_hash_pw demo_verify_pw demo_email_valid db
  ∧ unique_on username (users db)
  ∧ unique_on email (users db)
  ∧ unique_on isbn (books db).
Proof.
  intros db.
  assert (reachable demo_settings demo_hash_pw demo_verify_pw demo_email_valid db)
    as Hreach.
  { subst db. apply reachable_request. unfold fresh_db.
    apply reachable_startup, reachable_new. }
  split; [exact Hreach|]. exact (unique_columns_kept _ _ _ _ _ Hreach).
Defined.

Lemma well_referenced_more_users db us :
  users db ⊆ us → well_referenced db →
  well_referenced (mkStore us (books db) (loans db)).
Proof.
  intros Hsub (Hu & Hb & Hc). split; [|done].
  intros lid l Hl. destruct (Hu lid l Hl) as [u Hx]. exists u.
  by eapply lookup_weaken.
Qed.

Lemma signup_well_referenced hash_pw now data db :
  well_referenced db → well_referenced (run (signup hash_pw now data) db).1.
Proof.
  intros Hw. unfold run. rewrite exec_signup. destruct (first _); [done|].
  apply well_referenced_more_users; [|done]. apply insert_subseteq, next_id_fresh.
Qed.

Lemma bootstrap_admin_well_referenced settings hash_pw now db :
  well_referenced db →
  well_referenced (run (bootstrap_admin settings hash_pw now) db).1.
Proof.
  intros Hw. rewrite bootstrap_admin_fst. destruct (user_by_username _ db); [done|].
  destruct (decide _); [|done].
  apply well_referenced_more_users; [|done]. apply insert_subseteq, next_id_fresh.
Qed.

Lemma create_book_well_referenced now payload admin db :
  1 ≤ bc_total_copies payload →
  well_referenced db → well_referenced (run (create_book now payload admin) db).1.
Proof.
  intros Htotal (Hu & Hb & Hc). unfold run. rewrite exec_create_book.
  destruct (first _); [done|]. cbn. split; [done|]. split.
  - intros lid l Hl. cbn. apply lookup_insert_is_Some'. right. by apply (Hb lid).
  - intros bid b. cbn.
    destruct (decide (next_id (books db) = bid)) as [<-|Hne].
    + rewrite lookup_insert_eq. by intros [= <-].
    + rewrite lookup_insert_ne by done. apply Hc.
Qed.

Lemma delete_book_well_referenced bid admin db :
  well_referenced db → well_referenced (run (delete_book bid admin) db).1.
Proof.
  intros (Hu & Hb & Hc). unfold run. rewrite exec_delete_book.
  destruct (books db !! bid) as [bk|]; [|done]. destruct (decide _); [|done].
  destruct (decide _) as [Hnil|]; [|done]. cbn. split; [done|]. split.
  - intros lid l Hl. cbn in *. rewrite lookup_delete_ne; [by apply (Hb lid)|].
    intros Heq. by apply (proj1 (select_nil _ _) Hnil lid l Hl).
  - intros bid' b. cbn. intros [_ Hb']%lookup_delete_Some. by apply (Hc bid').
Qed.

Lemma borrow_well_referenced now data (user : row User) db :
  is_Some (users db !! user.1) →
  well_referenced db → well_referenced (run (borrow now data user) db).1.
Proof.
  intros Huser (Hu & Hb & Hc). unfold run. rewrite exec_borrow. cbn zeta.
  destruct (books db !! _) as [book|] eqn:Hbook; [|done].
  destruct (decide _); [done|]. destruct (first _); [done|]. cbn.
  split; [|split].
  - intros lid l. cbn.
    destruct (decide (next_id (loans db) = lid)) as [<-|Hne].
    + rewrite lookup_insert_eq. by intros [= <-].
    + rewrite lookup_insert_ne by done. apply Hu.
  - intros lid l. cbn.
    destruct (decide (next_id (loans db) = lid)) as [<-|Hne].
    + rewrite lookup_insert_eq. intros [= <-]. cbn. by rewrite lookup_insert_eq.
    + rewrite lookup_insert_ne by done. intros Hl.
      apply lookup_insert_is_Some'. right. by apply (Hb lid).
  - intros bid b. cbn.
    destruct (decide (borrow_book_id data = bid)) as [<-|Hne].
    + rewrite lookup_insert_eq. intros [= <-]. cbn. by apply (Hc _ _ Hbook).
    + rewrite lookup_insert_ne by done. apply Hc.
Qed.

Lemma return_book_well_referenced now lid user db :
  well_referenced db → well_referenced (run (return_book now lid user) db).1.
Proof.
  intros (Hu & Hb & Hc). unfold run. rewrite exec_return_book.
  destruct (loans db !! lid) as [loan|] eqn:Hloan; [|done].
  destruct (_ && _); [done|]. destruct (returned_at loan); [done|].
  destruct (books db !! _) as [book|] eqn:Hbook; [|done]. cbn.
  split; [|split].
  - intros lid' l. cbn.
    destruct (decide (lid = lid')) as [<-|Hne].
    + rewrite lookup_insert_eq. intros [= <-]. cbn. by apply (Hu lid).
    + rewrite lookup_insert_ne by done. apply Hu.
  - intros lid' l. cbn.
    destruct (decide (lid = lid')) as [<-|Hne].
    + rewrite lookup_insert_eq. intros [= <-]. cbn. by rewrite lookup_insert_eq.
    + rewrite lookup_insert_ne by done. intros Hl.
      apply lookup_insert_is_Some'. right. by apply (Hb lid').
  - intros bid b. cbn.
    destruct (decide (book_id loan = bid)) as [<-|Hne].
    + rewrite lookup_insert_eq. intros [= <-]. cbn. by apply (Hc _ _ Hbook).
    + rewrite lookup_insert_ne by done. apply Hc.
Qed.

Lemma app_well_referenced settings hash_pw verify_pw email_valid now req db :
  well_referenced db →
  well_referenced (run (app settings hash_pw verify_pw email_valid now req) db).1.
Proof.
  intros Hw. rewrite run_app.
  destruct (body_valid email_valid req) eqn:Hvalid; [|done].
  destruct req; cbn [admin_only andb]; cbn in Hvalid;
    try (destruct (run (current_user _ _ _) db).2 as [e|user] eqn:Huser; [done|]);
    try (destruct (is_admin user.2); cbn [negb]; [|done]);
    unfold respond; cbn [fst].
  - by apply signup_well_referenced.
  - by rewrite read_only_run by apply read_only_login.
  - done.
  - done.
  - apply create_book_well_referenced; [|done].
    by apply BookCreate_valid_total.
  - done.
  - by apply delete_book_well_referenced.
  - apply borrow_well_referenced; [|done].
    apply current_user_row in Huser. by rewrite Huser.
  - by apply return_book_well_referenced.
Qed.

Lemma reachable_well_referenced settings hash_pw verify_pw email_valid db :
  reachable settings hash_pw verify_pw email_valid db → well_referenced db.
Proof.
  induction 1 as [|now db _ IH|now req db _ IH].
  - repeat split; intros i x Hx; cbn in Hx; by rewrite lookup_empty in Hx.
  - by apply bootstrap_admin_well_referenced.
  - by apply app_well_referenced.
Qed.

Lemma serve_reachable settings hash_pw verify_pw email_valid reqs db :
  reachable settings hash_pw verify_pw email_valid db →
  reachable settings hash_pw verify_pw email_valid
    (serve settings hash_pw verify_pw email_valid reqs db).1.
Proof.
  revert db. induction reqs as [|[now req] reqs IH]; intros db Hreach; [done|].
  cbn [serve].
  pose proof (reachable_request _ _ _ _ now req db Hreach) as Hnext.
  destruct (run _ db) as [db1 r]. specialize (IH db1 Hnext).
  by destruct (serve _ _ _ _ reqs db1).
Qed.

Lemma borrowed_db_reachable :
  reachable demo_settings demo_hash_pw demo_verify_pw demo_email_valid borrowed_db.
Proof.
  apply serve_reachable. unfold fresh_db. apply reachable_startup, reachable_new.
Qed.

(** X9.  In every state the database reaches, the borrower of every loan
    row, Active or Returned, is a row of the users table, and every book has
    [total_copies ≥ 1]: a loan is only made for the resolved caller, no
    route removes a user, and a book is only created from a validated
    body. *)
Theorem loans_keep_their_user settings hash_pw verify_pw email_valid db :
  reachable settings hash_pw verify_pw email_valid db →
  (∀ lid l, loans db !! lid = Some l → is_Some (users db !! user_id l))
  ∧ (∀ bid b, books db !! bid = Some b → 1 ≤ total_copies b).
Proof.
  intros Hreach.
  destruct (reachable_well_referenced _ _ _ _ _ Hreach) as (Hu & _ & Hc). done.
Qed.

Lemma loans_keep_their_user_witness :
  reachable demo_settings demo_hash_pw demo_verify_pw demo_email_valid borrowed_db
  ∧ loans borrowed_db !! 1 = Some (mkLoan 2 1 3 None)
  ∧ is_Some (users borrowed_db !! 2).
Proof.
  split; [exact borrowed_db_reachable|]. split; [reflexivity|].
  exact (proj1 (loans_keep_their_user _ _ _ _ _ borrowed_db_reachable)
           1 (mkLoan 2 1 3 None) eq_refl).
Defined.

(** X10.  In every state the database reaches, the book of every loan row,
    Active or Returned, is a row of the books table: once a Title has been
    borrowed its row is never removed. *)
Theorem loans_keep_their_book settings hash_pw verify_pw email_valid db :
  reachable settings hash_pw verify_pw email_valid db →
  ∀ lid l, loans db !! lid = Some l → is_Some (books db !! book_id l).
Proof.
  intros Hreach.
  destruct (reachable_well_referenced _ _ _ _ _ Hreach) as (_ & Hb & _). done.
Qed.

Lemma loans_keep_their_book_witness :
  reachable demo_settings demo_hash_pw demo_verify_pw demo_email_valid borrowed_db
  ∧ loans borrowed_db !! 1 = Some (mkLoan 2 1 3 None)
  ∧ is_Some (books borrowed_db !! 1).
Proof.
  split; [exact borrowed_db_reachable|]. split; [reflexivity|].
  exact (loans_keep_their_book _ _ _ _ _ borrowed_db_reachable
           1 (mkLoan 2 1 3 None) eq_refl).
Defined.

(** ** Listings *)

(** A row inserted under a key above all others comes last. *)
Lemma rows_insert_last {A} (m : gmap Z A) i x :
  (∀ k, is_Some (m !! k) → k < i) →
  rows (<[i := x]> m) = rows m ++ [(i, x)].
Proof.
  intros Habove.
  assert (m !! i = None) as Hfresh.
  { destruct (m !! i) eqn:E; [|done]. specialize (Habove i (mk_is_Some _ _ E)). lia. }
  apply (StronglySorted_unique_strong key_le).
  - intros [k1 y1] [k2 y2] H1%elem_of_rows H2 Hle1 Hle2.
    unfold key_le in *. cbn in *. assert (k1 = k2) as -> by lia.
    rewrite elem_of_app in H2. destruct H2 as [H2%elem_of_rows|H2%list_elem_of_singleton].
    + destruct (decide (i = k2)) as [->|Hne]; [congruence|].
      rewrite lookup_insert_ne in H1 by done. congruence.
    + injection H2 as -> ->. rewrite lookup_insert_eq in H1. congruence.
  - apply rows_sorted.
  - apply StronglySorted_app_2.
    + intros [k1 y1] [k2 y2] H1%elem_of_rows H2%list_elem_of_singleton.
      injection H2 as -> ->. unfold key_le. cbn.
      specialize (Habove k1 (mk_is_Some _ _ H1)). lia.
    + apply rows_sorted.
    + repeat constructor.
  - rewrite (rows_insert_fresh m i x Hfresh). apply Permutation_cons_append.
Qed.

Lemma rows_insert_next {A} (m : gmap Z A) x :
  rows (<[next_id m := x]> m) = rows m ++ [(next_id m, x)].
Proof.
  apply rows_insert_last. intros k Hk.
  pose proof (max_key_bound m k Hk). unfold next_id. lia.
Qed.

Lemma select_insert_next {A} (p : row A → Prop) `{!∀ r, Decision (p r)}
    (m : gmap Z A) x :
  select p (<[next_id m := x]> m)
  = select p m ++ (if decide (p (next_id m, x)) then [(next_id m, x)] else []).
Proof.
  unfold select. rewrite rows_insert_next, filter_app. by f_equal.
Qed.

(** X11.  [my_loans] returns the caller's loans and nothing else: a row is
    listed exactly when it is a loan row of the caller, Active or Returned;
    each is listed once, and the list runs from the highest loan id down to
    the lowest (the most recent first). *)
Theorem my_loans_result (user : row User) db :
  ∃ ls, run (my_loans user) db = (db, inr ls)
    ∧ (∀ lid l, (lid, l) ∈ ls ↔ loans db !! lid = Some l ∧ user_id l = user.1)
    ∧ NoDup ls.*1
    ∧ StronglySorted key_le (reverse ls).
Proof.
  eexists. split; [reflexivity|]. split; [|split].
  - intros lid l. rewrite elem_of_reverse, elem_of_select. cbn. tauto.
  - rewrite fmap_reverse, reverse_Permutation. apply select_NoDup_keys.
  - rewrite reverse_involutive. apply select_sorted.
Qed.

(** X12.  A successful [borrow] puts its Loan at the head of the caller's
    [my_loans]; the rest of the list is what it was before. *)
Theorem borrow_then_my_loans now data (user : row User) db db' loan earlier :
  run (borrow now data user) db = (db', inr loan) →
  run (my_loans user) db = (db, inr earlier) →
  run (my_loans user) db' = (db', inr (loan :: earlier)).
Proof.
  unfold run at 1. rewrite exec_borrow. cbn zeta.
  destruct (books db !! _); [|done]. destruct (decide _); [done|].
  destruct (first _); [done|]. intros [= <- <-] [= <-].
  unfold run, my_loans, query. cbn [exec loans].
  rewrite select_insert_next. cbn. rewrite decide_True by done.
  by rewrite reverse_snoc.
Qed.

Lemma borrow_then_my_loans_witness :
  run (borrow 10 (mkBorrowIn 2) (2, john)) demo_db
  = (mkStore (users demo_db) (<[2 := last_copy_book 0]> (books demo_db))
             (<[2 := mkLoan 2 2 10 None]> (loans demo_db)),
     inr (2, mkLoan 2 2 10 None))
  ∧ run (my_loans (2, john))
        (mkStore (users demo_db) (<[2 := last_copy_book 0]> (books demo_db))
                 (<[2 := mkLoan 2 2 10 None]> (loans demo_db)))
    = (mkStore (users demo_db) (<[2 := last_copy_book 0]> (books demo_db))
               (<[2 := mkLoan 2 2 10 None]> (loans demo_db)),
       inr [(2, mkLoan 2 2 10 None); (1, mkLoan 2 1 5 None)]).
Proof.
  assert (run (borrow 10 (mkBorrowIn 2) (2, john)) demo_db
          = (mkStore (users demo_db) (<[2 := last_copy_book 0]> (books demo_db))
                     (<[2 := mkLoan 2 2 10 None]> (loans demo_db)),
             inr (2, mkLoan 2 2 10 None))) as Hborrow by (vm_compute; reflexivity).
  split; [exact Hborrow|].
  apply (borrow_then_my_loans 10 (mkBorrowIn 2) (2, john) demo_db _ _ _ Hborrow).
  vm_compute. reflexivity.
Defined.



(** ** Loans and copies over time *)

Lemma with_available_copies_same b : with_available_copies (available_copies b) b = b.
Proof. by destruct b. Qed.

Lemma with_available_copies_twice n m b :
  with_available_copies n (with_available_copies m b) = with_available_copies n b.
Proof. done. Qed.

(** X14.  Borrowing and returning is a round trip on the catalog: when the
    caller returns the Loan that [borrow] has just made, the books table is
    exactly what it was before the [borrow], the users table is untouched,
    and the loans table has gained the one Loan, now Returned. *)
Theorem borrow_then_return now later data (user : row User) db db1 loan :
  run (borrow now data user) db = (db1, inr loan) →
  run (return_book later loan.1 user) db1
  = (mkStore (users db) (books db)
       (<[loan.1 := with_returned_at later loan.2]> (loans db)),
     inr (loan.1, with_returned_at later loan.2))
  ∧ loans db !! loan.1 = None.
Proof.
  unfold run at 1. rewrite exec_borrow. cbn zeta.
  destruct (books db !! borrow_book_id data) as [book|] eqn:Hb; [|done].
  destruct (decide _); [done|]. destruct (first _); [done|].
  intros [= <- <-]. split; [|apply next_id_fresh].
  unfold run. rewrite exec_return_book. cbn [loans fst snd books users].
  rewrite lookup_insert_eq. cbn [user_id returned_at book_id].
  rewrite bool_decide_eq_false_2 by (intros Hne; by destruct Hne).
  cbn [andb]. rewrite lookup_insert_eq. cbn [available_copies with_available_copies].
  rewrite !insert_insert_eq. do 2 f_equal.
  f_equal. apply insert_id. rewrite Hb. f_equal.
  replace (available_copies book - 1 + 1) with (available_copies book) by lia.
  by destruct book.
Qed.

Lemma borrow_then_return_witness :
  run (borrow 10 (mkBorrowIn 2) (3, jane)) demo_db
  = (mkStore (users demo_db) (<[2 := last_copy_book 0]> (books demo_db))
             (<[2 := mkLoan 3 2 10 None]> (loans demo_db)),
     inr (2, mkLoan 3 2 10 None))
  ∧ run (return_book 20 2 (3, jane))
        (mkStore (users demo_db) (<[2 := last_copy_book 0]> (books demo_db))
                 (<[2 := mkLoan 3 2 10 None]> (loans demo_db)))
    = (mkStore (users demo_db) (books demo_db)
               (<[2 := mkLoan 3 2 10 (Some 20)]> (loans demo_db)),
       inr (2, mkLoan 3 2 10 (Some 20))).
Proof.
  assert (run (borrow 10 (mkBorrowIn 2) (3, jane)) demo_db
          = (mkStore (users demo_db) (<[2 := last_copy_book 0]> (books demo_db))
                     (<[2 := mkLoan 3 2 10 None]> (loans demo_db)),
             inr (2, mkLoan 3 2 10 None))) as Hborrow by (vm_compute; reflexivity).
  split; [exact Hborrow|].
  exact (proj1 (borrow_then_return 10 20 (mkBorrowIn 2) (3, jane) demo_db _ _
                  Hborrow)).
Defined.





Lemma transition_books_touched hash_pw now db db' :
  transition hash_pw now db db' →
  ∃ touched,
    (∀ bid, bid ≠ touched → books db' !! bid = books db !! bid)
    ∧ ∀ b b', books db !! touched = Some b → books db' !! touched = Some b' →
        ∃ d, -1 ≤ d ≤ 1 ∧ b' = with_available_copies (available_copies b + d) b.
Proof.
  assert (∀ bs : gmap Z Book, ∃ touched : Z,
    (∀ bid, bid ≠ touched → bs !! bid = bs !! bid)
    ∧ ∀ b b', bs !! touched = Some b → bs !! touched = Some b' →
        ∃ d, -1 ≤ d ≤ 1 ∧ b' = with_available_copies (available_copies b + d) b)
    as Hsame.
  { intros bs. exists 0. split; [done|]. intros b b' -> [= <-]. exists 0.
    split; [lia|]. rewrite Z.add_0_r. by rewrite with_available_copies_same. }
  intros [|data|payload admin Hv|bid admin|data user|lid user].
  - apply Hsame.
  - rewrite signup_books. apply Hsame.
  - unfold run. rewrite exec_create_book. destruct (first _); [apply Hsame|].
    cbn. exists (next_id (books db)). split.
    + intros bid Hne. by rewrite lookup_insert_ne.
    + intros b b' Hb. by rewrite next_id_fresh in Hb.
  - unfold run. rewrite exec_delete_book.
    destruct (books db !! bid) as [bk|]; [|apply Hsame].
    destruct (decide _); [|apply Hsame]. destruct (decide _); [|apply Hsame].
    cbn. exists bid. split.
    + intros bid' Hne. by rewrite lookup_delete_ne.
    + intros b b' _. by rewrite lookup_delete_eq.
  - unfold run. rewrite exec_borrow. cbn zeta.
    destruct (books db !! _) as [book|] eqn:Hb; [|apply Hsame].
    destruct (decide _); [apply Hsame|]. destruct (first _); [apply Hsame|].
    cbn. exists (borrow_book_id data). split.
    + intros bid' Hne. by rewrite lookup_insert_ne.
    + intros b b'. rewrite Hb, lookup_insert_eq. intros [= <-] [= <-].
      exists (-1). split; [lia|]. f_equal.
  - unfold run. rewrite exec_return_book.
    destruct (loans db !! lid) as [loan|]; [|apply Hsame].
    destruct (_ && _); [apply Hsame|].
    destruct (returned_at loan); [apply Hsame|].
    destruct (books db !! _) as [book|] eqn:Hb; [|apply Hsame].
    cbn. exists (book_id loan). split.
    + intros bid' Hne. by rewrite lookup_insert_ne.
    + intros b b'. rewrite Hb, lookup_insert_eq. intros [= <-] [= <-].
      exists 1. split; [lia|]. f_equal.
Qed.

(** X16.  One request changes at most one row of the books table; if that
    row was there before and is still there, only its [available_copies]
    may differ, and by at most one. *)
Theorem request_touches_one_book settings hash_pw verify_pw email_valid now req db :
  let db' := (run (app settings hash_pw verify_pw email_valid now req) db).1 in
  ∃ touched,
    (∀ bid, bid ≠ touched → books db' !! bid = books db !! bid)
    ∧ ∀ b b', books db !! touched = Some b → books db' !! touched = Some b' →
        ∃ d, -1 ≤ d ≤ 1 ∧ b' = with_available_copies (available_copies b + d) b.
Proof. cbn zeta. eapply transition_books_touched, app_transition. Qed.

Lemma request_touches_one_book_witness :
  let db' := (run (app demo_settings demo_hash_pw demo_verify_pw demo_email_valid
                       10 (POST_loans (Some (token_of "jane_roe")) (mkBorrowIn 2)))
                  demo_db).1 in
  books db' !! 2 = Some (last_copy_book 0)
  ∧ ∃ touched,
      (∀ bid, bid ≠ touched → books db' !! bid = books demo_db !! bid)
      ∧ ∀ b b', books demo_db !! touched = Some b → books db' !! touched = Some b' →
          ∃ d, -1 ≤ d ≤ 1 ∧ b' = with_available_copies (available_copies b + d) b.
Proof.
  intros db'. split; [reflexivity|].
  exact (request_touches_one_book demo_settings demo_hash_pw demo_verify_pw
           demo_email_valid 10
           (POST_loans (Some (token_of "jane_roe")) (mkBorrowIn 2)) demo_db).
Defined.

(** ** Searching the catalog *)

Lemma lower_like_pattern q :
  lower (String.list_ascii_of_string ("%" +:+ q +:+ "%"))
  = "%"%char :: lower (String.list_ascii_of_string q) ++ ["%"%char].
Proof.
  rewrite !list_ascii_of_string_app. unfold lower. rewrite !fmap_app. done.
Qed.

Lemma filter_all {A} (P : A → Prop) `{!∀ x, Decision (P x)} (l : list A) :
  (∀ x, P x) → filter P l = l.
Proof.
  intros HP. induction l as [|x l IH]; [done|].
  rewrite filter_cons_True by done. by rewrite IH.
Qed.

(** X17.  The text search does not look at the case of [q]: two non-empty
    [q] that are equal once lowered give the same listing, under any choice
    of the other two filters. *)
Theorem search_ignores_case cat available q1 q2 db :
  q1 ≠ "" → q2 ≠ "" →
  lower (String.list_ascii_of_string q1) = lower (String.list_ascii_of_string q2) →
  run (list_books cat available (Some q1)) db
  = run (list_books cat available (Some q2)) db.
Proof.
  intros H1 H2 Hlow. unfold run, list_books, query. cbn [exec].
  do 2 f_equal. unfold select. apply list_filter_iff. intros r.
  unfold q_filter, truthy. rewrite !decide_False by done. cbn zeta.
  unfold ilike. by rewrite !lower_like_pattern, Hlow.
Qed.

Lemma search_ignores_case_witness :
  run (list_books None None (Some "PYTHON")) demo_db
  = (demo_db, inr [(1, python_book 4)])
  ∧ run (list_books None None (Some "python")) demo_db
    = (demo_db, inr [(1, python_book 4)]).
Proof.
  assert (run (list_books None None (Some "python")) demo_db
          = (demo_db, inr [(1, python_book 4)])) as Hlow by (vm_compute; reflexivity).
  split; [|exact Hlow].
  rewrite (search_ignores_case None None "PYTHON" "python" demo_db);
    [exact Hlow|discriminate|discriminate|reflexivity].
Defined.

(** X18.  A filter that is absent, an empty [category] or [q], and
    [available=false] all filter nothing: with no other filter in effect
    [list_books] returns every row of the catalog, in ascending id. *)
Theorem no_filter_lists_all cat available q db :
  truthy cat = None → available ≠ Some true → truthy q = None →
  run (list_books cat available q) db = (db, inr (rows (books db))).
Proof.
  intros Hc Ha Hq. unfold run, list_books, query. cbn [exec].
  do 2 f_equal. unfold select. apply filter_all. intros r.
  unfold category_filter, available_filter, q_filter. rewrite Hc, Hq.
  split; [done|]. split; [|done]. by destruct available as [[]|].
Qed.

Lemma no_filter_lists_all_witness :
  run (list_books (Some "") (Some false) (Some "")) demo_db
  = (demo_db, inr [(1, python_book 4); (2, last_copy_book 1)]).
Proof.
  rewrite (no_filter_lists_all (Some "") (Some false) (Some "") demo_db);
    [|reflexivity|discriminate|reflexivity].
  vm_compute. reflexivity.
Defined.

(** X19.  What the listing shows as available can be borrowed: a Title
    returned by [list_books] with [available=true] is lent by [borrow] to
    any caller who holds no Active Loan on it. *)
Theorem listed_available_can_be_borrowed
    cat q now (user : row User) db bs bid b :
  run (list_books cat (Some true) q) db = (db, inr bs) →
  (bid, b) ∈ bs →
  active_loans_of user.1 bid db = [] →
  ∃ db' lid,
    run (borrow now (mkBorrowIn bid) user) db
    = (db', inr (lid, mkLoan user.1 bid now None))
    ∧ books db' !! bid = Some (with_available_copies (available_copies b - 1) b).
Proof.
  intros [= <-] Hin Hnone.
  apply elem_of_select in Hin as [(_ & Ha & _) Hb]. cbn in Ha, Hb.
  unfold run. rewrite exec_borrow. cbn zeta. cbn [borrow_book_id].
  rewrite Hb. rewrite decide_False by lia. rewrite Hnone. cbn.
  eexists _, _. split; [reflexivity|]. cbn. by rewrite lookup_insert_eq.
Qed.

Lemma listed_available_can_be_borrowed_witness :
  run (list_books None (Some true) None) demo_db
  = (demo_db, inr [(1, python_book 4); (2, last_copy_book 1)])
  ∧ ∃ db' lid,
      run (borrow 10 (mkBorrowIn 2) (3, jane)) demo_db
      = (db', inr (lid, mkLoan 3 2 10 None))
      ∧ books db' !! 2 = Some (last_copy_book 0).
Proof.
  assert (run (list_books None (Some true) None) demo_db
          = (demo_db, inr [(1, python_book 4); (2, last_copy_book 1)])) as Hlist
    by (vm_compute; reflexivity).
  split; [exact Hlist|].
  apply (listed_available_can_be_borrowed None None 10 (3, jane) demo_db _ 2
           (last_copy_book 1) Hlist).
  - apply list_elem_of_lookup. by exists 1%nat.
  - reflexivity.
Defined.

(** The rows of a table after one is deleted. *)
Lemma rows_delete {A} (m : gmap Z A) i :
  rows (delete i m) = filter (λ r, r.1 ≠ i) (rows m).
Proof.
  apply (StronglySorted_unique_strong key_le).
  - intros [k1 y1] [k2 y2] H1%elem_of_rows [_ H2%elem_of_rows]%list_elem_of_filter
      Hle1 Hle2.
    unfold key_le in *. cbn in *. assert (k1 = k2) as -> by lia.
    apply lookup_delete_Some in H1 as [_ H1]. congruence.
  - apply rows_sorted.
  - apply (select_sorted (λ r : row A, r.1 ≠ i)).
  - apply NoDup_Permutation.
    + rewrite rows_Permutation. apply NoDup_map_to_list.
    + apply NoDup_filter. rewrite rows_Permutation. apply NoDup_map_to_list.
    + intros [k y]. rewrite list_elem_of_filter, !elem_of_rows, lookup_delete_Some.
      cbn. split; intros [Hne Hy]; (split; [congruence|done]).
Qed.

(** X20.  A successful [delete_book] takes exactly its Title out of every
    listing: under any filters the listing afterwards is the listing before
    without the entry of that id, all the other entries as and where they
    were. *)
Theorem delete_book_then_list bid admin db db' cat available q bs :
  run (delete_book bid admin) db = (db', inr tt) →
  run (list_books cat available q) db = (db, inr bs) →
  run (list_books cat available q) db'
  = (db', inr (filter (λ r, r.1 ≠ bid) bs)).
Proof.
  unfold run at 1. rewrite exec_delete_book.
  destruct (books db !! bid) as [bk|]; [|done]. destruct (decide _); [|done].
  destruct (decide _); [|done]. intros [= <-] [= <-].
  unfold run, list_books, query. cbn [exec books]. do 2 f_equal.
  unfold select. rewrite rows_delete, !list_filter_filter.
  apply list_filter_iff. intros r. tauto.
Qed.

Lemma delete_book_then_list_witness :
  run (delete_book 2 (1, admin_user)) demo_db
  = (mkStore (users demo_db) (delete 2 (books demo_db)) (loans demo_db), inr tt)
  ∧ run (list_books None None None)
        (mkStore (users demo_db) (delete 2 (books demo_db)) (loans demo_db))
    = (mkStore (users demo_db) (delete 2 (books demo_db)) (loans demo_db),
       inr [(1, python_book 4)]).
Proof.
  assert (run (delete_book 2 (1, admin_user)) demo_db
          = (mkStore (users demo_db) (delete 2 (books demo_db)) (loans demo_db),
             inr tt)) as Hdel by (vm_compute; reflexivity).
  split; [exact Hdel|].
  rewrite (delete_book_then_list 2 (1, admin_user) demo_db _ None None None
             [(1, python_book 4); (2, last_copy_book 1)] Hdel);
    [reflexivity|vm_compute; reflexivity].
Defined.

(** ** Loans belong to the token's subject *)

Section Subject.

Variable settings : Settings.
Variable hash_pw : string → string.
Variable verify_pw : string → string → bool.
Variable email_valid : string → bool.

Lemma current_user_subject now token db user :
  (run (current_user settings now (Some token)) db).2 = inr user →
  token_subject token = Some (username user.2)
  ∧ users db !! user.1 = Some user.2.
Proof.
  rewrite run_current_user, run_get_current_user.
  destruct (jwt_decode _ _ _) as [payload|] eqn:Hd; [|done].
  apply jwt_decode_Some in Hd as [-> _]. cbn [token_subject].
  destruct (user_by_username _ _) eqn:Hu; [|done]. intros [= <-].
  by apply user_by_username_Some in Hu.
Qed.

(** X21.  Nobody borrows or reads loans in another user's name: the Loan
    made by a successful [POST /loans] has as borrower the user row whose
    username is the subject of the request's token, and every Loan listed
    by [GET /users/me/loans] is a loan of that user. *)
Theorem loans_are_the_subjects now token db :
  (∀ data db' loan,
     run (app settings hash_pw verify_pw email_valid now
              (POST_loans (Some token) data)) db = (db', inr (LoanOut loan)) →
     ∃ u, users db !! user_id loan.2 = Some u
        ∧ token_subject token = Some (username u)
        ∧ loans db' !! loan.1 = Some loan.2)
  ∧ (∀ db' ls lid l,
     run (app settings hash_pw verify_pw email_valid now
              (GET_users_me_loans (Some token))) db = (db', inr (LoansOut ls)) →
     (lid, l) ∈ ls →
     ∃ u, users db !! user_id l = Some u
        ∧ token_subject token = Some (username u)
        ∧ loans db !! lid = Some l).
Proof.
  split.
  - intros data db' loan. rewrite run_app. cbn [body_valid admin_only andb].
    destruct (run (current_user _ _ _) db).2 as [e|user] eqn:Huser; [done|].
    apply current_user_subject in Huser as [Hsub Hrow].
    unfold respond, run. rewrite exec_borrow. cbn zeta.
    destruct (books db !! _); [|done]. destruct (decide _); [done|].
    destruct (first _); [done|]. cbn. intros [= <- <-]. cbn.
    exists user.2. split; [done|]. split; [done|]. apply lookup_insert_eq.
  - intros db' ls lid l. rewrite run_app. cbn [body_valid admin_only andb].
    destruct (run (current_user _ _ _) db).2 as [e|user] eqn:Huser; [done|].
    apply current_user_subject in Huser as [Hsub Hrow].
    unfold respond, run, my_loans, query. cbn. intros [= <- <-].
    rewrite elem_of_reverse, elem_of_select. cbn. intros [-> Hl].
    exists user.2. done.
Qed.

End Subject.

Lemma loans_are_the_subjects_witness :
  ∃ u, users demo_db !! 3 = Some u
     ∧ token_subject (token_of "jane_roe") = Some (username u).
Proof.
  destruct (proj1 (loans_are_the_subjects demo_settings demo_hash_pw demo_verify_pw
                     demo_email_valid 10 (token_of "jane_roe") demo_db)
              (mkBorrowIn 2)
              (mkStore (users demo_db) (<[2 := last_copy_book 0]> (books demo_db))
                       (<[2 := mkLoan 3 2 10 None]> (loans demo_db)))
              (2, mkLoan 3 2 10 None))
    as (u & Hu & Hs & _).
  - vm_compute. reflexivity.
  - exists u. split; [exact Hu|exact Hs].
Defined.
